(** * Change-point detection of [time_series_analysis.py]

    A shallow embedding of the statistical core of
    [semantic_change_detection_methods/time_series_analysis.py]:
    z-score standardisation, compaction of a word's z-score series, the
    mean-shift statistic, the permutation test, the magnitude gate, the
    selection of a change point and the final ranking.

    Python floats and numpy float64 values are Rocq's primitive binary64
    floats ([PrimFloat]); [float | None] values are [option float]; Python
    exceptions are the [Raise] case of the result type [py]. *)

From Stdlib Require Import ZArith Lia String List Bool Permutation Sorted.
From Stdlib Require Import Floats.
From Stdlib Require Uint63.
Import ListNotations.

Open Scope bool_scope.

(** ** Python values and exceptions *)

Inductive exc : Type :=
| IndexError
| ValueError
| UnboundLocalError.

Inductive py (A : Type) : Type :=
| Ret (a : A)
| Raise (e : exc).
Arguments Ret {A} a.
Arguments Raise {A} e.

Definition py_bind {A B} (m : py A) (k : A -> py B) : py B :=
  match m with
  | Ret a => k a
  | Raise e => Raise e
  end.

Notation "x <- m ;; k" := (py_bind m (fun x => k))
  (at level 61, m at next level, right associativity).

(** [l[i]] for a non-negative index. *)
Definition py_index {A} (l : list A) (i : nat) : py A :=
  match nth_error l i with
  | Some a => Ret a
  | None => Raise IndexError
  end.

(** [for x in l: acc = f(acc, x)] where the body may raise. *)
Fixpoint py_fold {A B} (f : B -> A -> py B) (l : list A) (acc : B) : py B :=
  match l with
  | [] => Ret acc
  | x :: r => acc' <- f acc x ;; py_fold f r acc'
  end.

(** [a[i] = v] on a list or numpy array, for an index in range. *)
Fixpoint list_set {A} (l : list A) (i : nat) (v : A) : list A :=
  match l, i with
  | [], _ => []
  | _ :: r, O => v :: r
  | x :: r, S i' => x :: list_set r i' v
  end.

(** ** Floats *)

Open Scope float_scope.

(** Python's [bool(x)] on a float: [0.0] and [-0.0] are false, NaN is true. *)
Definition truthy (x : float) : bool := negb (x =? 0).

(** Python's [bool(v)] on a [float | None]. *)
Definition truthy_opt (v : option float) : bool :=
  match v with
  | None => false
  | Some x => truthy x
  end.

(** [float(n)] for a Python integer [n], rounded to nearest, ties to even.
    Below 2^63 this is the conversion of a 63-bit integer; above it, the
    same rounding written with SpecFloat.  Where the rounded value reaches
    2^1024 Python raises OverflowError; the model gives +inf there. *)
Definition float_of_nat (n : nat) : float :=
  let z := Z.of_nat n in
  if (Z.log2 z <? 63)%Z then of_uint63 (Uint63.of_Z z)
  else SF2Prim (SpecFloat.binary_normalize prec emax z 0 false).

Close Scope float_scope.

(** ** The embedding *)

Section Embedding.

(** numpy's summation of a float64 array ([np.add.reduce], pairwise
    summation).  It is kept abstract: every result below holds for any
    order of summation. *)
Variable np_sum : list float -> float.

(** [np.mean]: NaN (with a RuntimeWarning) on an empty array. *)
Definition np_mean (l : list float) : float :=
  match l with
  | [] => nan
  | _ => (np_sum l / float_of_nat (length l))%float
  end.

(** [np.var] with [ddof = 0]: the mean of the squared deviations. *)
Definition np_var (l : list float) : float :=
  let m := np_mean l in
  np_mean (map (fun x => ((x - m) * (x - m))%float) l).

(** [[i for i in values if i]] on a list of [float | None]: keeps the truthy
    values, so drops [None] and also [0.0]. *)
Fixpoint compact (values : list (option float)) : list float :=
  match values with
  | [] => []
  | Some x :: r => if truthy x then x :: compact r else compact r
  | None :: r => compact r
  end.

(** [get_z_score_dict]; a dict is an association list in insertion order. *)
Definition get_z_score_dict (dist_dict : list (string * option float))
  : list (string * option float) :=
  let mean := np_mean (compact (map snd dist_dict)) in
  let var := np_var (compact (map snd dist_dict)) in
  map (fun '(word, d) =>
         (word, match d with
                | Some x => if truthy x then Some ((x - mean) / sqrt var)%float
                            else None
                | None => None
                end))
      dist_dict.

(** [compute_mean_shift]. *)
Definition compute_mean_shift (time_series : list float) (j : nat)
  (compare_to : string) : float :=
  if String.eqb compare_to "first" then
    (np_mean (filter truthy (skipn (j + 1) time_series))
     - np_mean (filter truthy (firstn (j + 1) time_series)))%float
  else
    (np_mean (filter truthy (firstn (j + 1) time_series))
     - np_mean (filter truthy (skipn (j + 1) time_series)))%float.

(** [get_mean_shift_series]: [range(len(time_series) - 1)] is empty on an
    empty series. *)
Definition get_mean_shift_series (time_series : list float) (compare_to : string)
  : list float :=
  map (fun j => compute_mean_shift time_series j compare_to)
      (seq 0 (length time_series - 1)).

(** [p_value_series[x] += 1]. *)
Definition incr (p : list float) (x : nat) : py (list float) :=
  v <- py_index p x ;; Ret (list_set p x (v + 1)%float).

(** The body of the inner loop of [get_p_value_series] at index [x]. *)
Definition count_step (mean_shift_series mean_shift_permuted_series : list float)
  (p : list float) (x : nat) : py (list float) :=
  m <- py_index mean_shift_series x ;;
  if is_nan m then incr p x
  else
    mp <- py_index mean_shift_permuted_series x ;;
    if (m <? mp)%float then incr p x else Ret p.

(** [get_p_value_series].  The random source is explicit: [permutation i zs]
    is the array returned by [np.random.permutation(zs)] at the [i]-th draw.
    The [print] of the NaN branch is not modelled. *)
Definition get_p_value_series (word : string) (mean_shift_series : list float)
  (n_samples : nat) (z_score_series : list float) (compare_to : string)
  (permutation : nat -> list float -> list float) : py (list float) :=
  p <- py_fold
         (fun p i =>
            let permuted_z_score_series := permutation i z_score_series in
            let mean_shift_permuted_series :=
              get_mean_shift_series permuted_z_score_series compare_to in
            py_fold (count_step mean_shift_series mean_shift_permuted_series)
                    (seq 0 (length mean_shift_permuted_series)) p)
         (seq 0 n_samples) (repeat 0%float (length mean_shift_series)) ;;
  Ret (map (fun v => (v / float_of_nat n_samples)%float) p).

(** The magnitude gate of [detect_change_point]:
    [if z_score_series[i] < gamma_threshold: p_value_series[i] = 1]. *)
Definition gate (p_value_series z_score_series : list float)
  (gamma_threshold : float) : py (list float) :=
  py_fold (fun p i =>
             z <- py_index z_score_series i ;;
             Ret (if (z <? gamma_threshold)%float then list_set p i 1%float else p))
          (seq 0 (length p_value_series)) p_value_series.

(** numpy's [minimum] as used by the [min] reduction: NaN propagates. *)
Definition np_minimum (a b : float) : float :=
  if (a <=? b)%float || is_nan a then a else b.

(** [p_value_series.min()]: ValueError on an empty array. *)
Definition np_min (l : list float) : py float :=
  match l with
  | [] => Raise ValueError
  | x :: r => Ret (fold_left np_minimum r x)
  end.

(** [max(pairs, key = lambda x: x[1])]: the first element, replaced by each
    later one whose key is strictly greater. *)
Definition max_by_snd (pairs : list (nat * float)) : py (nat * float) :=
  match pairs with
  | [] => Raise ValueError
  | x :: r =>
      Ret (fold_left (fun best it => if (snd best <? snd it)%float then it else best) r x)
  end.

(** [[time_slice_labels[i] for i in range(len(time_slice_labels)) if z_score_series[i]]]. *)
Definition compact_labels (time_slice_labels : list string)
  (z_score_series : list (option float)) : py (list string) :=
  py_fold (fun acc i =>
             z <- py_index z_score_series i ;;
             lab <- py_index time_slice_labels i ;;
             Ret (if truthy_opt z then acc ++ [lab] else acc))
          (seq 0 (length time_slice_labels)) [].

(** [np.where(p_value_series == min_p_val)[0]]. *)
Definition where_eq (p : list float) (v : float) : list nat :=
  filter (fun i => match nth_error p i with
                   | Some x => (x =? v)%float
                   | None => false
                   end)
         (seq 0 (length p)).

(** A change-point result [(word, time_slice_label, p_value, mean_shift, z_score)]. *)
Definition change_point_result : Type := (string * string * float * float * float)%type.

(** The selection step of [detect_change_point], from [min_p_val] on. *)
Definition select_change_point (word : string) (notNone_time_slice_labels : list string)
  (z_score_series mean_shift_series p_value_series : list float)
  (p_value_threshold : float) : py (option change_point_result) :=
  match np_min p_value_series with
  | Raise ValueError =>
      (* the ValueError is caught and printed; [min_p_val] stays unbound *)
      Raise UnboundLocalError
  | Raise e => Raise e
  | Ret min_p_val =>
      if (min_p_val <? p_value_threshold)%float then
        let indices := where_eq p_value_series min_p_val in
        pairs <- py_fold (fun acc i => m <- py_index mean_shift_series i ;; Ret (acc ++ [(i, m)]))
                         indices [] ;;
        best <- max_by_snd pairs ;;
        let '(change_point, mean_shift) := best in
        z_score <- py_index z_score_series change_point ;;
        time_slice_label <- py_index notNone_time_slice_labels change_point ;;
        Ret (Some (word, time_slice_label, min_p_val, mean_shift, z_score))
      else Ret None
  end.

(** [detect_change_point]. *)
Definition detect_change_point (word : string) (time_slice_labels : list string)
  (z_score_series : list (option float)) (n_samples : nat)
  (p_value_threshold gamma_threshold : float) (compare_to : string)
  (permutation : nat -> list float -> list float) : py (option change_point_result) :=
  notNone_time_slice_labels <- compact_labels time_slice_labels z_score_series ;;
  match notNone_time_slice_labels with
  | [] => Ret None
  | _ :: _ =>
      let zs := compact z_score_series in
      let mean_shift_series := get_mean_shift_series zs compare_to in
      p_value_series <- get_p_value_series word mean_shift_series n_samples zs
                          compare_to permutation ;;
      p_value_series <- gate p_value_series zs gamma_threshold ;;
      select_change_point word notNone_time_slice_labels zs mean_shift_series
                          p_value_series p_value_threshold
  end.

End Embedding.

(** ** Distances and ranking (the driver code) *)

Section Driver.

(** The external collaborators: loading a gensim model from its path, the
    vocabulary test [word in model], the vector [model[word]], the cosine
    distance, the neighbourhood shift measure and the Procrustes alignment. *)
Variables Model Vec : Type.
Variable load_model : string -> Model.
Variable in_model : string -> Model -> bool.
Variable vector : Model -> string -> Vec.
Variable cosine : Vec -> Vec -> float.
Variable measure_semantic_shift_by_neighborhood : Model -> Model -> string -> nat -> float.
Variable smart_procrustes_align_gensim : Model -> Model -> Model.

(** [get_dist_dict]; the vocabulary set is given in its iteration order. *)
Definition get_dist_dict (model_path alignment_reference_model_path
  comparison_reference_model_path : string) (vocab : list string)
  (distance_measure : string) (k : nat) (training_mode : string)
  : list (string * option float) :=
  let model0 := load_model model_path in
  let alignment_reference_model := load_model alignment_reference_model_path in
  let comparison_reference_model0 := load_model comparison_reference_model_path in
  let aligned := String.eqb distance_measure "cosine"
                 && String.eqb training_mode "independent" in
  let model := if aligned then smart_procrustes_align_gensim alignment_reference_model model0
               else model0 in
  let comparison_reference_model :=
    if aligned then smart_procrustes_align_gensim alignment_reference_model comparison_reference_model0
    else comparison_reference_model0 in
  map (fun word =>
         (word,
          if in_model word comparison_reference_model && in_model word model then
            if String.eqb distance_measure "cosine" then
              Some (cosine (vector comparison_reference_model word) (vector model word))
            else (* distance_measure == 'neighborhood' *)
              Some (measure_semantic_shift_by_neighborhood comparison_reference_model
                      model word k)
          else None))
      vocab.

End Driver.

Definition result_p_value (r : change_point_result) : float :=
  let '(_, _, p, _, _) := r in p.
Definition result_mean_shift (r : change_point_result) : float :=
  let '(_, _, _, m, _) := r in m.
Definition result_z_score (r : change_point_result) : float :=
  let '(_, _, _, _, z) := r in z.

(** [sorted(l, key = key)]: a stable sort on [<] of the keys (insertion
    sort; it agrees with Python's sort whenever no key is NaN). *)
Fixpoint insert_by_key {A} (key : A -> float) (x : A) (l : list A) : list A :=
  match l with
  | [] => [x]
  | y :: r => if (key x <? key y)%float then x :: y :: r else y :: insert_by_key key x r
  end.

Definition sorted_by_key {A} (key : A -> float) (l : list A) : list A :=
  fold_left (fun acc x => insert_by_key key x acc) l [].

(** The ranking at the end of the [__main__] block. *)
Definition rank_results (rank_by : string) (results : list change_point_result)
  : list change_point_result :=
  if String.eqb rank_by "z_score" then
    sorted_by_key (fun x => (- result_z_score x)%float) results
  else if String.eqb rank_by "mean_shift" then
    sorted_by_key (fun x => (- result_mean_shift x)%float) results
  else (* options.rank_by == 'p_value' *)
    sorted_by_key result_p_value
      (sorted_by_key (fun x => (- result_mean_shift x)%float) results).

(** A concrete summation, for evaluating the embedding on examples. *)
Definition np_sum_seq (l : list float) : float := fold_left (fun a x => (a + x)%float) l 0%float.

(** The random source that returns the series unchanged at every draw. *)
Definition identity_permutation (_ : nat) (zs : list float) : list float := zs.

(** ** An integer rank for the order of binary64 values

    For a valid non-NaN binary64 value, [sf_rank] is an integer whose order is
    the IEEE order of the values ([-0] and [+0] share the rank 0).  It is used
    to reason about [<?], [<=?] and [=?] on floats. *)

Definition emin64 : Z := -1074.
Definition two53 : Z := 9007199254740992.
Definition rank_inf : Z := 1208925819614629174706176.

Definition sf_rank (x : spec_float) : Z :=
  match x with
  | S754_zero _ | S754_nan => 0
  | S754_infinity false => rank_inf
  | S754_infinity true => (- rank_inf)%Z
  | S754_finite false m e => ((e - emin64) * two53 + Zpos m)%Z
  | S754_finite true m e => (- ((e - emin64) * two53 + Zpos m))%Z
  end.

Definition frank (x : float) : Z := sf_rank (Prim2SF x).

(** ** Binary64 values of small integers

    [shift_of q] is the right shift that [binary_round_aux] applies to a
    positive mantissa [q] of a normal result; [int_sf n] is the binary64 value
    of an integer [1 <= n < 2^53]: a 53-bit mantissa and its exponent. *)

Definition shift_of (q : Z) : Z := Z.max (Z.log2 q + 1 - 53) 0%Z.

Definition int_sf (n : Z) : spec_float :=
  S754_finite false (Z.to_pos (n * 2 ^ (52 - Z.log2 n))%Z) (Z.log2 n - 52)%Z.

(** ** The permutation test as the claim states it

    [exceeds ms msp j]: at split index [j], the mean shift [msp] of a permuted
    series strictly exceeds the original [ms], or the original is NaN.
    [exceed_count ms msp n j] counts the draws [i < n] for which it holds. *)

Definition exceeds (ms msp : list float) (j : nat) : bool :=
  is_nan (nth j ms 0%float) || (nth j ms 0 <? nth j msp 0)%float.

Definition exceed_count (ms : list float) (msp : nat -> list float) (n j : nat) : nat :=
  length (filter (fun i => exceeds ms (msp i) j) (seq 0 n)).

(** ** The loops of the [__main__] block

    [py_range a b] is [range(a, b)].  [month_loop] and [year_loop] are the two
    nested loops that list the (year, month) pairs whose model path is tested:
    [continue] skips the months before [first_month] of [first_year] and the
    years before [first_year], [break] leaves the months after [last_month] of
    [last_year] and the years after [last_year].  The loop keeps the pairs
    whose model file exists. *)

Definition py_range (a b : Z) : list Z :=
  map (fun k => (a + Z.of_nat k)%Z) (seq 0 (Z.to_nat (b - a))).

Fixpoint month_loop (first_year first_month last_year last_month year : Z)
  (months : list Z) : list (Z * Z) :=
  match months with
  | [] => []
  | month :: r =>
      if (year =? first_year)%Z && (month <? first_month)%Z then
        month_loop first_year first_month last_year last_month year r
      else if (year =? last_year)%Z && (last_month <? month)%Z then []
      else (year, month) :: month_loop first_year first_month last_year last_month year r
  end.

Fixpoint year_loop (first_year first_month last_year last_month : Z)
  (years : list Z) : list (Z * Z) :=
  match years with
  | [] => []
  | year :: r =>
      if (year <? first_year)%Z then year_loop first_year first_month last_year last_month r
      else if (last_year <? year)%Z then []
      else month_loop first_year first_month last_year last_month year (py_range 1 13) ++
           year_loop first_year first_month last_year last_month r
  end.

Definition time_slices (first_year first_month last_year last_month : Z) : list (Z * Z) :=
  year_loop first_year first_month last_year last_month (py_range 2011 2019).

(** [l[i]] for any integer [i]: a negative index counts from the end. *)
Definition py_getitem {A} (l : list A) (i : Z) : py A :=
  let k := if (i <? 0)%Z then (i + Z.of_nat (length l))%Z else i in
  if (k <? 0)%Z then Raise IndexError else py_index l (Z.to_nat k).

(** The index of the reference model chosen by [align_to] or [compare_to]
    for the [i]-th model: [model_paths[0]], [model_paths[-1]], and
    [model_paths[i-1]] in the [else] branch. *)
Definition reference_index (option : string) (i : nat) : Z :=
  if String.eqb option "first" then 0%Z
  else if String.eqb option "last" then (-1)%Z
  else (Z.of_nat i - 1)%Z.

(** The head of the body of [for (i, model_path) in enumerate(model_paths)]:
    [None] where the body [continue]s, else the alignment and the comparison
    reference model paths. *)
Definition reference_paths (align_to compare_to : string) (model_paths : list string)
  (i : nat) : py (option (string * string)) :=
  if Nat.eqb i 0 && (String.eqb compare_to "previous" || String.eqb align_to "previous"
                     || String.eqb compare_to "first") then Ret None
  else if (Z.of_nat i =? Z.of_nat (length model_paths) - 1)%Z
          && String.eqb compare_to "last" then Ret None
  else
    alignment_reference_model_path <- py_getitem model_paths (reference_index align_to i) ;;
    comparison_reference_model_path <- py_getitem model_paths (reference_index compare_to i) ;;
    Ret (Some (alignment_reference_model_path, comparison_reference_model_path)).

(** [d[k] = v] on a dict with string keys, an association list in insertion
    order. *)
Fixpoint dict_set {V} (d : list (string * V)) (k : string) (v : V) : list (string * V) :=
  match d with
  | [] => [(k, v)]
  | (k', v') :: r => if String.eqb k' k then (k, v) :: r else (k', v') :: dict_set r k v
  end.

(** [d[k]]; [None] is the [KeyError]. *)
Fixpoint dict_get {V} (d : list (string * V)) (k : string) : option V :=
  match d with
  | [] => None
  | (k', v) :: r => if String.eqb k' k then Some v else dict_get r k
  end.

Section MainLoop.

Variable np_sum : list float -> float.
Variables Model Vec : Type.
Variable load_model : string -> Model.
Variable in_model : string -> Model -> bool.
Variable vector : Model -> string -> Vec.
Variable cosine : Vec -> Vec -> float.
Variable measure_semantic_shift_by_neighborhood : Model -> Model -> string -> nat -> float.
Variable smart_procrustes_align_gensim : Model -> Model -> Model.

(** The loop that fills [dict_of_z_score_dicts] and [time_slice_labels_used]. *)
Definition z_score_table (model_paths time_slice_labels vocab : list string)
  (align_to compare_to distance_measure : string) (k : nat) (training_mode : string)
  : py (list (string * list (string * option float)) * list string) :=
  py_fold
    (fun '(dict_of_z_score_dicts, time_slice_labels_used) '(i, model_path) =>
       refs <- reference_paths align_to compare_to model_paths i ;;
       match refs with
       | None => Ret (dict_of_z_score_dicts, time_slice_labels_used)
       | Some (alignment_reference_model_path, comparison_reference_model_path) =>
           let z_score_dict :=
             get_z_score_dict np_sum
               (get_dist_dict Model Vec load_model in_model vector cosine
                  measure_semantic_shift_by_neighborhood smart_procrustes_align_gensim
                  model_path alignment_reference_model_path comparison_reference_model_path
                  vocab distance_measure k training_mode) in
           time_slice <- py_index time_slice_labels i ;;
           Ret (dict_set dict_of_z_score_dicts time_slice z_score_dict,
                time_slice_labels_used ++ [time_slice])
       end)
    (combine (seq 0 (length model_paths)) model_paths) ([], []).

End MainLoop.

(** [[dict_of_z_score_dicts[time_slice][word] for time_slice in
    time_slice_labels_used]]; [None] is a [KeyError]. *)
Fixpoint z_score_series_of (dict_of_z_score_dicts : list (string * list (string * option float)))
  (time_slice_labels_used : list string) (word : string) : option (list (option float)) :=
  match time_slice_labels_used with
  | [] => Some []
  | time_slice :: r =>
      match dict_get dict_of_z_score_dicts time_slice with
      | None => None
      | Some z_score_dict =>
          match dict_get z_score_dict word with
          | None => None
          | Some z =>
              match z_score_series_of dict_of_z_score_dicts r word with
              | None => None
              | Some s => Some (z :: s)
              end
          end
      end
  end.

(** * Properties *)

(** ** General lemmas *)

Lemma py_fold_id {A B} (f : B -> A -> py B) (l : list A) (acc : B) :
  (forall x, In x l -> f acc x = Ret acc) -> py_fold f l acc = Ret acc.
Proof.
  induction l as [|x r IH]; intros H; simpl; [reflexivity|].
  rewrite (H x (or_introl eq_refl)). simpl. apply IH. intros y Hy. apply H. now right.
Qed.

Lemma py_fold_app {A B} (f : B -> A -> py B) (l1 l2 : list A) (acc : B) :
  py_fold f (l1 ++ l2) acc = py_bind (py_fold f l1 acc) (py_fold f l2).
Proof.
  revert acc. induction l1 as [|x r IH]; intros acc; simpl; [reflexivity|].
  destruct (f acc x); simpl; [apply IH|reflexivity].
Qed.

Lemma get_mean_shift_series_length np_sum ts cmp :
  length (get_mean_shift_series np_sum ts cmp) = length ts - 1.
Proof. unfold get_mean_shift_series. now rewrite length_map, length_seq. Qed.

(** Every value of a compacted series is truthy. *)
Lemma compact_truthy zs : Forall (fun x => truthy x = true) (compact zs).
Proof.
  induction zs as [|[x|] r IH]; simpl; auto.
  destruct (truthy x) eqn:E; auto.
Qed.

Lemma filter_truthy_id l :
  Forall (fun x => truthy x = true) l -> filter truthy l = l.
Proof.
  induction 1 as [|x r Hx _ IH]; simpl; [reflexivity|]. now rewrite Hx, IH.
Qed.

Lemma Forall_firstn' {A} (P : A -> Prop) n l : Forall P l -> Forall P (firstn n l).
Proof.
  revert l. induction n as [|n IH]; intros l H; simpl; [constructor|].
  destruct H; constructor; auto.
Qed.

Lemma Forall_skipn' {A} (P : A -> Prop) n l : Forall P l -> Forall P (skipn n l).
Proof.
  revert l. induction n as [|n IH]; intros l H; simpl; [exact H|].
  destruct H; [constructor|auto].
Qed.

Lemma py_fold_inv {A B} (P : B -> Prop) (f : B -> A -> py B) (l : list A) (acc res : B) :
  (forall a x r, P a -> f a x = Ret r -> P r) ->
  P acc -> py_fold f l acc = Ret res -> P res.
Proof.
  intros Hf. revert acc. induction l as [|x r IH]; intros acc Hacc H; simpl in H.
  - inversion H; subst; exact Hacc.
  - destruct (f acc x) as [a|e] eqn:E; simpl in H; [|discriminate].
    apply (IH a); [apply (Hf acc x a Hacc E)|exact H].
Qed.

Lemma length_list_set {A} (l : list A) i v : length (list_set l i v) = length l.
Proof. revert i. induction l as [|x r IH]; intros [|i]; simpl; auto. Qed.

Lemma nth_error_list_set_eq {A} (l : list A) i v :
  i < length l -> nth_error (list_set l i v) i = Some v.
Proof.
  revert i. induction l as [|x r IH]; intros [|i] H; simpl in *; try lia; auto.
  apply IH. lia.
Qed.

Lemma nth_error_list_set_neq {A} (l : list A) i j v :
  i <> j -> nth_error (list_set l i v) j = nth_error l j.
Proof.
  revert i j. induction l as [|x r IH]; intros [|i] [|j] H; simpl; auto; try lia; apply IH; lia.
Qed.

Lemma py_index_lt {A} (l : list A) i : i < length l -> exists a, py_index l i = Ret a /\ nth_error l i = Some a.
Proof.
  intros H. unfold py_index. destruct (nth_error l i) as [a|] eqn:E.
  - now exists a.
  - apply nth_error_None in E. lia.
Qed.

(** ** Compaction and standardisation *)

(** C4: on the labels ["2012_02"; "2012_03"; "2012_04"] with the defined
    z-scores [0.0; 1.0; 2.0], the compaction of [detect_change_point] drops
    the defined z-score 0.0 together with its label, since [if z] is false
    on 0.0 as on None; the remaining labels and values stay aligned. *)
Theorem compaction_drops_zero_z_score :
  compact_labels ["2012_02"; "2012_03"; "2012_04"]%string
    [Some 0%float; Some 1%float; Some 2%float] = Ret ["2012_03"; "2012_04"]%string /\
  compact [Some 0%float; Some 1%float; Some 2%float] = [1%float; 2%float].
Proof. split; vm_compute; reflexivity. Qed.

(** C5: on the distance dict {a: 0.0, b: 1.0, c: 3.0}, [get_z_score_dict]
    takes the mean and variance over [1.0; 3.0] only and maps the word with
    the defined distance 0.0 to None, whatever the summation order. *)
Theorem z_score_dict_drops_zero_distance np_sum :
  get_z_score_dict np_sum [("a", Some 0%float); ("b", Some 1%float); ("c", Some 3%float)]%string =
  [("a", None);
   ("b", Some ((1 - np_mean np_sum [1; 3]) / sqrt (np_var np_sum [1; 3]))%float);
   ("c", Some ((3 - np_mean np_sum [1; 3]) / sqrt (np_var np_sum [1; 3]))%float)]%string.
Proof. reflexivity. Qed.

(** C3: on a compacted series [s] of length L, the mean-shift series is,
    entry by entry for j = 0 .. L-2, mean(s[j+1:]) - mean(s[:j+1]) under
    [first] and mean(s[:j+1]) - mean(s[j+1:]) otherwise ([last], [previous]),
    with the means taken over the whole slices; it has exactly L - 1 entries;
    and the mean of an empty slice is NaN. *)
Theorem mean_shift_series_of_compacted np_sum zs compare_to :
  let s := compact zs in
  get_mean_shift_series np_sum s compare_to =
    map (fun j =>
           if String.eqb compare_to "first" then
             (np_mean np_sum (skipn (j + 1) s) - np_mean np_sum (firstn (j + 1) s))%float
           else
             (np_mean np_sum (firstn (j + 1) s) - np_mean np_sum (skipn (j + 1) s))%float)
        (seq 0 (length s - 1)) /\
  length (get_mean_shift_series np_sum s compare_to) = length s - 1 /\
  is_nan (np_mean np_sum []) = true.
Proof.
  intros s. split; [|split].
  - unfold get_mean_shift_series, compute_mean_shift. apply map_ext. intros j.
    pose proof (compact_truthy zs) as Hs. fold s in Hs.
    destruct (String.eqb compare_to "first");
      rewrite !filter_truthy_id; try reflexivity;
      first [apply Forall_skipn' | apply Forall_firstn']; exact Hs.
  - apply get_mean_shift_series_length.
  - reflexivity.
Qed.

(** ** The permutation test *)

Lemma get_p_value_series_zero_samples np_sum word zs compare_to permutation :
  get_p_value_series np_sum word (get_mean_shift_series np_sum zs compare_to) 0 zs
    compare_to permutation =
  Ret (repeat (0 / float_of_nat 0)%float (length zs - 1)).
Proof.
  unfold get_p_value_series. simpl. rewrite map_repeat, get_mean_shift_series_length.
  reflexivity.
Qed.

(** C7 (counterexample): with N = 0 trials on the compacted series
    [1.0; 2.0], the p-value at the split index 0 is NaN (0/0), not 0. *)
Lemma p_value_zero_samples_not_zero :
  exists p,
    get_p_value_series np_sum_seq "cat" (get_mean_shift_series np_sum_seq [1; 2]%float "last")
      0 [1; 2]%float "last" identity_permutation = Ret p /\
    p <> [] /\ Forall (fun v => (v =? 0)%float = false) p.
Proof.
  eexists. split; [apply get_p_value_series_zero_samples|].
  split; [discriminate|]. simpl. repeat constructor.
Qed.

(** C7 (amended): with N = 0 trials the p-value series of a series of
    length L has L - 1 entries, each NaN (the zero count divided by zero);
    it is empty when L <= 1. *)
Theorem p_value_series_zero_samples_nan np_sum word zs compare_to permutation :
  exists p,
    get_p_value_series np_sum word (get_mean_shift_series np_sum zs compare_to) 0 zs
      compare_to permutation = Ret p /\
    length p = length zs - 1 /\ Forall (fun v => is_nan v = true) p.
Proof.
  eexists. split; [apply get_p_value_series_zero_samples|].
  rewrite repeat_length. split; [reflexivity|].
  apply Forall_forall. intros v Hv. apply repeat_spec in Hv. subst v. reflexivity.
Qed.

(** ** Detection *)

(** C6: for the word "cat" whose z-score series [1.0; None] has a single
    defined entry, [detect_change_point] raises: the p-value series is
    empty, [min()] raises a ValueError that is caught and printed, and the
    comparison with the still unbound [min_p_val] raises an
    UnboundLocalError.  (The only permutation of a one-element array is the
    array itself.) *)
Theorem single_defined_entry_raises np_sum n_samples p_value_threshold gamma_threshold
  compare_to :
  detect_change_point np_sum "cat" ["2012_02"; "2012_03"]%string [Some 1%float; None]
    n_samples p_value_threshold gamma_threshold compare_to identity_permutation =
  Raise UnboundLocalError.
Proof.
  unfold detect_change_point. vm_compute compact_labels. cbn beta iota.
  unfold get_p_value_series.
  rewrite py_fold_id; [reflexivity|].
  intros i _. reflexivity.
Qed.

Lemma incr_length p x r : incr p x = Ret r -> length r = length p.
Proof.
  unfold incr, py_index. destruct (nth_error p x); simpl; intros H; [|discriminate].
  inversion H. apply length_list_set.
Qed.

Lemma count_step_length ms msp p x r :
  count_step ms msp p x = Ret r -> length r = length p.
Proof.
  unfold count_step, py_index.
  destruct (nth_error ms x) as [m|]; simpl; [|discriminate].
  destruct (is_nan m); [apply incr_length|].
  destruct (nth_error msp x) as [mp|]; simpl; [|discriminate].
  destruct (m <? mp)%float; [apply incr_length|]. intros H; now inversion H.
Qed.

(** The p-value series has one entry per split index. *)
Lemma get_p_value_series_length np_sum word ms n zs compare_to permutation p :
  get_p_value_series np_sum word ms n zs compare_to permutation = Ret p ->
  length p = length ms.
Proof.
  unfold get_p_value_series.
  destruct (py_fold _ (seq 0 n) _) as [q|e] eqn:E; simpl; intros H; [|discriminate].
  inversion H; subst p. rewrite length_map.
  refine (py_fold_inv (fun q => length q = length ms) _ _ _ _ _ _ E).
  - intros a i r Ha Hr. rewrite <- Ha.
    refine (py_fold_inv (fun q => length q = length a) _ _ _ _ _ _ Hr); [|reflexivity].
    intros b x c Hb Hc. rewrite <- Hb. eapply count_step_length. exact Hc.
  - apply repeat_length.
Qed.

(** ** The magnitude gate *)

Lemma gate_prefix p zs gamma k :
  k <= length p -> length p <= length zs ->
  exists q,
    py_fold (fun p i =>
               z <- py_index zs i ;;
               Ret (if (z <? gamma)%float then list_set p i 1%float else p))
            (seq 0 k) p = Ret q /\
    length q = length p /\
    forall i v z, nth_error p i = Some v -> nth_error zs i = Some z ->
      nth_error q i = Some (if (i <? k)%nat then (if (z <? gamma)%float then 1%float else v) else v).
Proof.
  intros Hk Hz. induction k as [|k IH].
  - exists p. repeat split. intros i v z Hv _. simpl. exact Hv.
  - destruct IH as [q [Hq [Hl Hn]]]; [lia|].
    rewrite seq_S, py_fold_app, Hq. simpl.
    destruct (py_index_lt zs k) as [z [Hzk Hzn]]; [lia|]. rewrite Hzk. simpl.
    exists (if (z <? gamma)%float then list_set q k 1%float else q).
    split; [reflexivity|]. split.
    + destruct (z <? gamma)%float; [rewrite length_list_set|]; exact Hl.
    + intros i v z' Hv Hz'. specialize (Hn i v z' Hv Hz').
      destruct (Nat.eq_dec i k) as [->|Hik].
      * rewrite Hzn in Hz'. inversion Hz'; subst z'.
        rewrite Nat.ltb_irrefl in Hn. rewrite (proj2 (Nat.ltb_lt k (S k))) by lia.
        destruct (z <? gamma)%float; [apply nth_error_list_set_eq; lia|exact Hn].
      * assert (Hb : (i <? S k)%nat = (i <? k)%nat).
        { destruct (Nat.ltb_spec i k), (Nat.ltb_spec i (S k)); auto; lia. }
        rewrite Hb. destruct (z <? gamma)%float; [|exact Hn].
        rewrite nth_error_list_set_neq by lia. exact Hn.
Qed.

(** C8: once the p-value series [p] of a series [zs] is computed, the gate
    sets p[j] to 1 exactly at the split indices j whose signed z-score
    zs[j] is strictly below gamma, and leaves every other p[j] unchanged. *)
Theorem gate_sets_one_below_gamma np_sum word zs n compare_to permutation p gamma :
  get_p_value_series np_sum word (get_mean_shift_series np_sum zs compare_to) n zs
    compare_to permutation = Ret p ->
  exists q,
    gate p zs gamma = Ret q /\ length q = length p /\
    forall j v z, nth_error p j = Some v -> nth_error zs j = Some z ->
      nth_error q j = Some (if (z <? gamma)%float then 1%float else v).
Proof.
  intros H. apply get_p_value_series_length in H.
  rewrite get_mean_shift_series_length in H.
  destruct (gate_prefix p zs gamma (length p)) as [q [Hq [Hl Hn]]]; [lia|lia|].
  exists q. split; [exact Hq|]. split; [exact Hl|].
  intros j v z Hv Hz. rewrite (Hn j v z Hv Hz).
  assert (Hj : j < length p) by (apply nth_error_Some; congruence).
  now rewrite (proj2 (Nat.ltb_lt j (length p)) Hj).
Qed.

Lemma gate_sets_one_below_gamma_witness :
  get_p_value_series np_sum_seq "cat" (get_mean_shift_series np_sum_seq [1; 2]%float "last")
    1 [1; 2]%float "last" identity_permutation = Ret [0%float] /\
  exists q,
    gate [0%float] [1; 2]%float 1.5%float = Ret q /\ length q = length [0%float] /\
    forall j v z, nth_error [0%float] j = Some v -> nth_error [1; 2]%float j = Some z ->
      nth_error q j = Some (if (z <? 1.5)%float then 1%float else v).
Proof.
  split; [vm_compute; reflexivity|].
  apply (gate_sets_one_below_gamma np_sum_seq "cat" [1; 2]%float 1 "last"
           identity_permutation [0%float] 1.5%float).
  vm_compute. reflexivity.
Defined.

(** ** Configuration *)

(** C10 (counterexample): the rank key "rank" and the distance measure
    "euclidean" raise no error: the results are ranked as for [p_value]
    and the distance is the neighbourhood measure. *)
Lemma unrecognised_options_accepted :
  get_dist_dict unit unit (fun _ => tt) (fun _ _ => true) (fun _ _ => tt)
    (fun _ _ => 0%float) (fun _ _ _ _ => 1%float) (fun _ m => m)
    "m1" "m2" "m3" ["cat"]%string "euclidean" 25 "independent" = [("cat", Some 1%float)]%string /\
  rank_results "rank" [("cat", "2012_03", 0.5, 2, 1); ("dog", "2012_04", 0.25, 1, 3)]%float%string =
    [("dog", "2012_04", 0.25, 1, 3); ("cat", "2012_03", 0.5, 2, 1)]%float%string.
Proof. split; vm_compute; reflexivity. Qed.

(** C10 (amended): a distance measure other than [cosine] is computed as the
    neighbourhood measure, and a rank key other than [z_score] and
    [mean_shift] ranks as [p_value]; neither is rejected. *)
Theorem unrecognised_options_fall_back Model Vec load_model in_model vector cosine
  measure_semantic_shift_by_neighborhood smart_procrustes_align_gensim
  model_path alignment_reference_model_path comparison_reference_model_path vocab
  distance_measure k training_mode rank_by results :
  distance_measure <> "cosine"%string ->
  rank_by <> "z_score"%string -> rank_by <> "mean_shift"%string ->
  get_dist_dict Model Vec load_model in_model vector cosine
    measure_semantic_shift_by_neighborhood smart_procrustes_align_gensim
    model_path alignment_reference_model_path comparison_reference_model_path vocab
    distance_measure k training_mode =
  get_dist_dict Model Vec load_model in_model vector cosine
    measure_semantic_shift_by_neighborhood smart_procrustes_align_gensim
    model_path alignment_reference_model_path comparison_reference_model_path vocab
    "neighborhood" k training_mode /\
  rank_results rank_by results = rank_results "p_value" results.
Proof.
  intros Hd Hz Hm. split.
  - unfold get_dist_dict.
    rewrite (proj2 (String.eqb_neq distance_measure "cosine") Hd). reflexivity.
  - unfold rank_results.
    rewrite (proj2 (String.eqb_neq rank_by "z_score") Hz),
            (proj2 (String.eqb_neq rank_by "mean_shift") Hm).
    reflexivity.
Qed.

Lemma unrecognised_options_fall_back_witness :
  "euclidean"%string <> "cosine"%string /\ "rank"%string <> "z_score"%string /\
  "rank"%string <> "mean_shift"%string /\
  get_dist_dict unit unit (fun _ => tt) (fun _ _ => true) (fun _ _ => tt)
    (fun _ _ => 0%float) (fun _ _ _ _ => 1%float) (fun _ m => m)
    "m1" "m2" "m3" ["cat"]%string "euclidean" 25 "independent" =
  get_dist_dict unit unit (fun _ => tt) (fun _ _ => true) (fun _ _ => tt)
    (fun _ _ => 0%float) (fun _ _ _ _ => 1%float) (fun _ m => m)
    "m1" "m2" "m3" ["cat"]%string "neighborhood" 25 "independent" /\
  rank_results "rank" [] = rank_results "p_value" [].
Proof.
  split; [discriminate|]. split; [discriminate|]. split; [discriminate|].
  apply unrecognised_options_fall_back; discriminate.
Defined.

(** ** The order of binary64 values *)

Section Order.
Local Open Scope Z_scope.

Lemma digits2_pos_bound m : Zpos m < 2 ^ Zpos (digits2_pos m).
Proof.
  induction m as [m IH|m IH|]; simpl digits2_pos; try (simpl; lia);
    rewrite Pos2Z.inj_succ, Z.pow_succ_r by lia; lia.
Qed.

Lemma valid_finite_bounds s m e :
  valid_binary (S754_finite s m e) = true ->
  emin64 <= e <= 971 /\ 0 < Zpos m < two53.
Proof.
  unfold valid_binary, bounded, canonical_mantissa, SpecFloat.fexp, SpecFloat.emin.
  intros H. apply andb_prop in H. destruct H as [H1 H2].
  apply Z.eqb_eq in H1. apply Z.leb_le in H2.
  pose proof (digits2_pos_bound m) as Hd.
  assert (He : Z.max (Zpos (digits2_pos m) + e - 53) (-1074) = e) by exact H1.
  assert (Hdm : Zpos (digits2_pos m) <= 53) by lia.
  assert (Hp : 2 ^ Zpos (digits2_pos m) <= 2 ^ 53) by (apply Z.pow_le_mono_r; lia).
  unfold emin64, two53. change (2 ^ 53) with 9007199254740992 in Hp.
  change emax with 1024 in H2. change prec with 53 in H2. lia.
Qed.

Lemma Prim2SF_nan x : is_nan x = true -> Prim2SF x = S754_nan.
Proof. intros H. unfold Prim2SF. now rewrite H. Qed.

Lemma Prim2SF_not_nan x : is_nan x = false -> Prim2SF x <> S754_nan.
Proof.
  intros H. unfold Prim2SF. rewrite H.
  destruct (is_zero x); [discriminate|]. destruct (is_infinity x); [discriminate|].
  destruct (Z.frexp x) as [r e]. destruct (shr_fexp _ _ _ _ _) as [sh e'].
  destruct (shr_m sh); discriminate.
Qed.

Lemma SFcompare_rank a b :
  valid_binary a = true -> valid_binary b = true ->
  a <> S754_nan -> b <> S754_nan ->
  SFcompare a b = Some (Z.compare (sf_rank a) (sf_rank b)).
Proof.
  intros Va Vb Na Nb.
  assert (Ba : forall s m e, a = S754_finite s m e -> emin64 <= e <= 971 /\ 0 < Zpos m < two53)
    by (intros s m e ->; eapply valid_finite_bounds; exact Va).
  assert (Bb : forall s m e, b = S754_finite s m e -> emin64 <= e <= 971 /\ 0 < Zpos m < two53)
    by (intros s m e ->; eapply valid_finite_bounds; exact Vb).
  destruct a as [sa|sa| |sa ma ea]; [| | contradiction |];
  destruct b as [sb|sb| |sb mb eb]; try contradiction;
  try destruct sa; try destruct sb; cbv beta iota delta [SFcompare sf_rank]; f_equal;
  try (specialize (Ba _ _ _ eq_refl)); try (specialize (Bb _ _ _ eq_refl));
  unfold rank_inf, emin64, two53 in *;
  try (symmetry; first [apply Z.compare_eq_iff | apply Z.compare_lt_iff
                        | apply Z.compare_gt_iff]; lia).
  - destruct (Z.compare_spec ea eb) as [->|H|H].
    + change (Pos.compare_cont Eq ma mb) with (Pos.compare ma mb).
      rewrite Z.compare_opp, <- Pos.compare_antisym.
      rewrite Z.add_compare_mono_l. reflexivity.
    + symmetry. apply Z.compare_gt_iff. lia.
    + symmetry. apply Z.compare_lt_iff. lia.
  - destruct (Z.compare_spec ea eb) as [->|H|H].
    + change (Pos.compare_cont Eq ma mb) with (Pos.compare ma mb).
      rewrite Z.add_compare_mono_l. reflexivity.
    + symmetry. apply Z.compare_lt_iff. lia.
    + symmetry. apply Z.compare_gt_iff. lia.
Qed.

Lemma compare_frank x y :
  is_nan x = false -> is_nan y = false ->
  SFcompare (Prim2SF x) (Prim2SF y) = Some (Z.compare (frank x) (frank y)).
Proof.
  intros Hx Hy. apply SFcompare_rank; try apply Prim2SF_valid;
    apply Prim2SF_not_nan; assumption.
Qed.

Lemma ltb_frank x y :
  is_nan x = false -> is_nan y = false -> (x <? y)%float = (frank x <? frank y).
Proof.
  intros Hx Hy. rewrite ltb_spec. unfold SFltb. rewrite compare_frank by assumption.
  unfold Z.ltb. now destruct (frank x ?= frank y).
Qed.

Lemma leb_frank x y :
  is_nan x = false -> is_nan y = false -> (x <=? y)%float = (frank x <=? frank y).
Proof.
  intros Hx Hy. rewrite leb_spec. unfold SFleb. rewrite compare_frank by assumption.
  unfold Z.leb. now destruct (frank x ?= frank y).
Qed.

Lemma eqb_frank x y :
  is_nan x = false -> is_nan y = false -> (x =? y)%float = (frank x =? frank y).
Proof.
  intros Hx Hy. rewrite eqb_spec. unfold SFeqb. rewrite compare_frank by assumption.
  destruct (Z.compare_spec (frank x) (frank y)) as [H|H|H].
  - symmetry. now apply Z.eqb_eq.
  - symmetry. apply Z.eqb_neq. lia.
  - symmetry. apply Z.eqb_neq. lia.
Qed.

Lemma ltb_not_nan x y : (x <? y)%float = true -> is_nan x = false /\ is_nan y = false.
Proof.
  rewrite ltb_spec. unfold SFltb.
  destruct (is_nan x) eqn:Hx; [rewrite (Prim2SF_nan x Hx); discriminate|].
  destruct (is_nan y) eqn:Hy; [|auto].
  rewrite (Prim2SF_nan y Hy). now destruct (Prim2SF x).
Qed.

Lemma leb_not_nan x y : (x <=? y)%float = true -> is_nan x = false /\ is_nan y = false.
Proof.
  rewrite leb_spec. unfold SFleb.
  destruct (is_nan x) eqn:Hx; [rewrite (Prim2SF_nan x Hx); discriminate|].
  destruct (is_nan y) eqn:Hy; [|auto].
  rewrite (Prim2SF_nan y Hy). now destruct (Prim2SF x).
Qed.

(** Turn the float comparisons of the context and goal into integer ones. *)
Ltac to_rank :=
  repeat match goal with
  | H : (?x <? ?y)%float = true |- _ =>
      let Hn := fresh in
      pose proof (ltb_not_nan x y H) as [? ?];
      rewrite ltb_frank in H by assumption; apply Z.ltb_lt in H
  | H : (?x <=? ?y)%float = true |- _ =>
      let Hn := fresh in
      pose proof (leb_not_nan x y H) as [? ?];
      rewrite leb_frank in H by assumption; apply Z.leb_le in H
  end.

Lemma ltb_trans x y z : (x <? y)%float = true -> (y <? z)%float = true -> (x <? z)%float = true.
Proof.
  intros H1 H2. pose proof (ltb_not_nan x y H1) as [Hx _].
  pose proof (ltb_not_nan y z H2) as [_ Hz]. to_rank.
  rewrite ltb_frank by assumption. apply Z.ltb_lt. lia.
Qed.

Lemma ltb_leb_trans x y z : (x <? y)%float = true -> (y <=? z)%float = true -> (x <? z)%float = true.
Proof.
  intros H1 H2. pose proof (ltb_not_nan x y H1) as [Hx _].
  pose proof (leb_not_nan y z H2) as [_ Hz]. to_rank.
  rewrite ltb_frank by assumption. apply Z.ltb_lt. lia.
Qed.

Lemma leb_ltb_trans x y z : (x <=? y)%float = true -> (y <? z)%float = true -> (x <? z)%float = true.
Proof.
  intros H1 H2. pose proof (leb_not_nan x y H1) as [Hx _].
  pose proof (ltb_not_nan y z H2) as [_ Hz]. to_rank.
  rewrite ltb_frank by assumption. apply Z.ltb_lt. lia.
Qed.

Lemma leb_trans x y z : (x <=? y)%float = true -> (y <=? z)%float = true -> (x <=? z)%float = true.
Proof.
  intros H1 H2. pose proof (leb_not_nan x y H1) as [Hx _].
  pose proof (leb_not_nan y z H2) as [_ Hz]. to_rank.
  rewrite leb_frank by assumption. apply Z.leb_le. lia.
Qed.

Lemma ltb_leb x y : (x <? y)%float = true -> (x <=? y)%float = true.
Proof.
  intros H. pose proof (ltb_not_nan x y H) as [Hx Hy]. to_rank.
  rewrite leb_frank by assumption. apply Z.leb_le. lia.
Qed.

Lemma ltb_irrefl x : (x <? x)%float = false.
Proof.
  destruct (x <? x)%float eqn:H; [|reflexivity]. exfalso. to_rank. lia.
Qed.

Lemma ltb_asym x y : (x <? y)%float = true -> (y <? x)%float = false.
Proof.
  intros H. destruct (y <? x)%float eqn:H'; [|reflexivity]. exfalso. to_rank. lia.
Qed.

Lemma leb_refl x : is_nan x = false -> (x <=? x)%float = true.
Proof. intros H. rewrite leb_frank by assumption. apply Z.leb_le. lia. Qed.

Lemma not_leb_ltb x y :
  is_nan x = false -> is_nan y = false -> (x <=? y)%float = false -> (y <? x)%float = true.
Proof.
  intros Hx Hy H. rewrite leb_frank in H by assumption. rewrite ltb_frank by assumption.
  apply Z.leb_gt in H. apply Z.ltb_lt. exact H.
Qed.

Lemma eqb_refl_not_nan x : is_nan x = false -> (x =? x)%float = true.
Proof. unfold is_nan. now destruct (x =? x)%float. Qed.

End Order.

(** ** Minimum and maximum *)

Lemma fold_min_spec r acc :
  is_nan (fold_left np_minimum r acc) = false ->
  (fold_left np_minimum r acc = acc \/ In (fold_left np_minimum r acc) r) /\
  is_nan acc = false /\ (fold_left np_minimum r acc <=? acc)%float = true /\
  Forall (fun x => is_nan x = false /\ (fold_left np_minimum r acc <=? x)%float = true) r.
Proof.
  revert acc. induction r as [|x r IH]; intros acc Hm; simpl in *.
  - repeat split; auto. apply leb_refl. exact Hm.
  - remember (np_minimum acc x) as a eqn:Ea.
    set (m := fold_left np_minimum r a) in *.
    destruct (IH _ Hm) as [Hin [Hn [Hle Hall]]].
    unfold np_minimum in Ea.
    destruct (acc <=? x)%float eqn:Hax; simpl in Ea; subst a.
    + pose proof (leb_not_nan _ _ Hax) as [_ Hxn].
      repeat split; auto.
      * destruct Hin; auto.
      * constructor; [split; [exact Hxn|eapply leb_trans; eauto]|exact Hall].
    + destruct (is_nan acc) eqn:Han; [congruence|].
      pose proof (not_leb_ltb _ _ Han Hn Hax) as Hlt.
      repeat split; auto.
      * destruct Hin as [Heq|Hin]; right; [left; symmetry; exact Heq|right; exact Hin].
      * apply ltb_leb. eapply leb_ltb_trans; eauto.
Qed.

(** When [min()] returns a value other than NaN, no entry is NaN, the value
    is an entry, and it is below or equal to every entry. *)
Lemma np_min_spec l m :
  np_min l = Ret m -> is_nan m = false ->
  In m l /\ Forall (fun x => is_nan x = false /\ (m <=? x)%float = true) l.
Proof.
  destruct l as [|x r]; simpl; intros H; [discriminate|]. inversion H; subst m.
  intros Hm. destruct (fold_min_spec r x Hm) as [Hin [Hn [Hle Hall]]].
  split; [destruct Hin as [->|Hin]; auto|]. constructor; auto.
Qed.

Lemma fold_max_mono (r : list (nat * float)) acc y :
  (snd acc <? y)%float = false ->
  (snd (fold_left (fun best it => if (snd best <? snd it)%float then it else best) r acc)
     <? y)%float = false.
Proof.
  revert acc. induction r as [|x r IH]; intros acc H; simpl; [exact H|].
  apply IH. destruct (snd acc <? snd x)%float eqn:E; [|exact H].
  destruct (snd x <? y)%float eqn:E'; [|reflexivity].
  rewrite (ltb_trans _ _ _ E E') in H. discriminate.
Qed.

Lemma fold_max_spec (r : list (nat * float)) acc :
  let b := fold_left (fun best it => if (snd best <? snd it)%float then it else best) r acc in
  (b = acc \/ In b r) /\ Forall (fun it => (snd b <? snd it)%float = false) (acc :: r).
Proof.
  revert acc. induction r as [|x r IH]; intros acc; simpl.
  - split; [auto|]. constructor; [apply ltb_irrefl|constructor].
  - set (acc' := if (snd acc <? snd x)%float then x else acc).
    destruct (IH acc') as [Hin Hall]. inversion Hall as [|? ? Hacc' Hr]; subst.
    split.
    + destruct Hin as [Hin|Hin]; [|auto].
      rewrite Hin. unfold acc'. destruct (snd acc <? snd x)%float; auto.
    + constructor; [|constructor; [|exact Hr]].
      * apply fold_max_mono. unfold acc'.
        destruct (snd acc <? snd x)%float eqn:E; [apply ltb_asym; exact E|apply ltb_irrefl].
      * apply fold_max_mono. unfold acc'.
        destruct (snd acc <? snd x)%float eqn:E; [apply ltb_irrefl|exact E].
Qed.

(** Python's [max] with a key returns an element, and no element has a
    strictly greater key. *)
Lemma max_by_snd_spec pairs best :
  max_by_snd pairs = Ret best ->
  In best pairs /\ Forall (fun it => (snd best <? snd it)%float = false) pairs.
Proof.
  destruct pairs as [|x r]; simpl; intros H; [discriminate|]. inversion H; subst best.
  destruct (fold_max_spec r x) as [Hin Hall]. split; [|exact Hall].
  destruct Hin as [->|Hin]; auto.
Qed.

(** ** Runs that raise no exception *)

Lemma py_fold_ok {A B} (P : B -> Prop) (f : B -> A -> py B) (l : list A) (acc : B) :
  (forall a x, P a -> In x l -> exists r, f a x = Ret r /\ P r) ->
  P acc -> exists res, py_fold f l acc = Ret res /\ P res.
Proof.
  revert acc. induction l as [|x r IH]; intros acc Hf Hacc; simpl.
  - now exists acc.
  - destruct (Hf acc x Hacc (or_introl eq_refl)) as [a [Ha Pa]]. rewrite Ha. simpl.
    apply IH; [|exact Pa]. intros b y Pb Hy. apply Hf; [exact Pb|now right].
Qed.

Lemma incr_ok p x : x < length p -> exists r, incr p x = Ret r /\ length r = length p.
Proof.
  intros H. destruct (py_index_lt p x H) as [v [Hv _]]. unfold incr. rewrite Hv.
  simpl. eexists; split; [reflexivity|apply length_list_set].
Qed.

Lemma count_step_ok ms msp p x :
  length msp = length ms -> length p = length ms -> x < length msp ->
  exists r, count_step ms msp p x = Ret r /\ length r = length ms.
Proof.
  intros H1 H2 H3. unfold count_step.
  destruct (py_index_lt ms x) as [m [Hm _]]; [lia|]. rewrite Hm. simpl.
  destruct (is_nan m).
  - destruct (incr_ok p x) as [r [Hr Hl]]; [lia|]. exists r. split; [exact Hr|lia].
  - destruct (py_index_lt msp x) as [mp [Hmp _]]; [lia|]. rewrite Hmp. simpl.
    destruct (m <? mp)%float.
    + destruct (incr_ok p x) as [r [Hr Hl]]; [lia|]. exists r. split; [exact Hr|lia].
    + exists p. split; [reflexivity|exact H2].
Qed.

(** With draws of the length of the series, the permutation test raises no
    exception. *)
Lemma get_p_value_series_ok np_sum word zs n compare_to permutation :
  (forall i, i < n -> length (permutation i zs) = length zs) ->
  exists p,
    get_p_value_series np_sum word (get_mean_shift_series np_sum zs compare_to) n zs
      compare_to permutation = Ret p /\ length p = length zs - 1.
Proof.
  intros Hperm. unfold get_p_value_series. cbv zeta.
  set (ms := get_mean_shift_series np_sum zs compare_to).
  destruct (py_fold_ok (fun q => length q = length ms)
              (fun p i =>
                 py_fold (count_step ms (get_mean_shift_series np_sum (permutation i zs) compare_to))
                   (seq 0 (length (get_mean_shift_series np_sum (permutation i zs) compare_to))) p)
              (seq 0 n) (repeat 0%float (length ms))) as [q [Hq Hl]].
  - intros a i Ha Hi. apply in_seq in Hi.
    apply py_fold_ok; [|exact Ha].
    intros b x Hb Hx. apply in_seq in Hx. apply count_step_ok; try lia.
    unfold ms. rewrite !get_mean_shift_series_length, Hperm by lia. reflexivity.
  - apply repeat_length.
  - rewrite Hq. simpl. eexists; split; [reflexivity|].
    rewrite length_map, Hl. apply get_mean_shift_series_length.
Qed.

Lemma compact_app a b : compact (a ++ b) = compact a ++ compact b.
Proof.
  induction a as [|[x|] r IH]; simpl; [reflexivity| |exact IH].
  destruct (truthy x); [now rewrite IH|exact IH].
Qed.

Lemma firstn_S_nth_error {A} (l : list A) k a :
  nth_error l k = Some a -> firstn (S k) l = firstn k l ++ [a].
Proof.
  revert l. induction k as [|k IH]; intros [|x r] H; simpl in *; try discriminate.
  - now inversion H.
  - f_equal. now apply IH.
Qed.

(** With one label per z-score, the compacted labels are as many as the
    compacted z-scores. *)
Lemma compact_labels_ok labels zs :
  length labels = length zs ->
  exists ls, compact_labels labels zs = Ret ls /\ length ls = length (compact zs).
Proof.
  intros Hlen. unfold compact_labels.
  assert (Hk : forall k, k <= length labels ->
    exists acc,
      py_fold (fun acc i =>
                 z <- py_index zs i ;;
                 lab <- py_index labels i ;;
                 Ret (if truthy_opt z then acc ++ [lab] else acc))
              (seq 0 k) [] = Ret acc /\ length acc = length (compact (firstn k zs))).
  { induction k as [|k IH]; intros Hk.
    - exists []. split; reflexivity.
    - destruct IH as [acc [Hacc Hl]]; [lia|].
      destruct (py_index_lt zs k) as [z [Hz Hzn]]; [lia|].
      destruct (py_index_lt labels k) as [lab [Hlab _]]; [lia|].
      rewrite (firstn_S_nth_error zs k z Hzn), compact_app, length_app, <- Hl.
      rewrite seq_S, py_fold_app, Hacc. simpl.
      rewrite Hz. simpl. rewrite Hlab. simpl.
      eexists; split; [reflexivity|].
      destruct z as [x|]; simpl; [|lia].
      destruct (truthy x); simpl; rewrite ?length_app; simpl; lia. }
  destruct (Hk (length labels) (le_n _)) as [acc [Hacc Hl]].
  exists acc. split; [exact Hacc|]. rewrite Hl, Hlen, firstn_all. reflexivity.
Qed.

Lemma pairs_fold ms indices acc :
  (forall i, In i indices -> i < length ms) ->
  py_fold (fun acc i => m <- py_index ms i ;; Ret (acc ++ [(i, m)])) indices acc =
  Ret (acc ++ map (fun i => (i, nth i ms 0%float)) indices).
Proof.
  revert acc. induction indices as [|i r IH]; intros acc H; simpl.
  - now rewrite app_nil_r.
  - destruct (py_index_lt ms i) as [m [Hm Hmn]]; [apply H; now left|].
    rewrite Hm. simpl. rewrite IH by (intros j Hj; apply H; now right).
    rewrite <- app_assoc. simpl. rewrite (nth_error_nth ms i 0%float Hmn). reflexivity.
Qed.

Lemma where_eq_In p v i :
  In i (where_eq p v) <->
  exists x, nth_error p i = Some x /\ (x =? v)%float = true.
Proof.
  unfold where_eq. rewrite filter_In, in_seq. split.
  - intros [_ H]. destruct (nth_error p i) as [x|]; [now exists x|discriminate].
  - intros [x [Hx Heq]]. rewrite Hx. split; [|exact Heq].
    split; [lia|]. apply nth_error_Some. congruence.
Qed.

Lemma gate_ok p zs gamma :
  length p <= length zs -> exists q, gate p zs gamma = Ret q /\ length q = length p.
Proof.
  intros H. destruct (gate_prefix p zs gamma (length p)) as [q [Hq [Hl _]]]; [lia|exact H|].
  exists q. split; [exact Hq|exact Hl].
Qed.

(** The selection step on a non-empty p-value series: no result unless the
    minimum is below the threshold, and otherwise the first index, among those
    at the minimum, whose mean shift no other such index exceeds. *)
Lemma select_change_point_spec word ls zs ms p thr :
  length p = length ms -> length ms <= length zs -> length ms <= length ls -> p <> [] ->
  exists mn, np_min p = Ret mn /\
    ((mn <? thr)%float = false -> select_change_point word ls zs ms p thr = Ret None) /\
    ((mn <? thr)%float = true ->
     exists i, i < length p /\
       select_change_point word ls zs ms p thr =
         Ret (Some (word, nth i ls ""%string, mn, nth i ms 0%float, nth i zs 0%float)) /\
       (nth i p 0 =? mn)%float = true /\
       (forall k, k < length p -> (mn <=? nth k p 0)%float = true) /\
       (forall k, k < length p -> (nth k p 0 =? mn)%float = true ->
                  (nth i ms 0 <? nth k ms 0)%float = false)).
Proof.
  intros Hpm Hmz Hml Hne. destruct p as [|x r]; [congruence|].
  assert (Hmin : np_min (x :: r) = Ret (fold_left np_minimum r x)) by reflexivity.
  remember (x :: r) as p eqn:Ep. clear Ep Hne.
  remember (fold_left np_minimum r x) as mn eqn:Emn. clear Emn.
  exists mn. split; [exact Hmin|]. unfold select_change_point. rewrite Hmin.
  split; intros Hthr; rewrite Hthr; [reflexivity|].
  destruct (ltb_not_nan _ _ Hthr) as [Hmn _].
  destruct (np_min_spec p mn Hmin Hmn) as [Hin Hall].
  rewrite Forall_forall in Hall.
  assert (Hidx : forall i, In i (where_eq p mn) -> i < length ms).
  { intros i Hi. apply where_eq_In in Hi. destruct Hi as [y [Hy _]].
    rewrite <- Hpm. apply nth_error_Some. congruence. }
  rewrite (pairs_fold ms (where_eq p mn) [] Hidx). simpl.
  destruct (In_nth_error p mn Hin) as [j Hj].
  assert (Hj' : In j (where_eq p mn)).
  { apply where_eq_In. exists mn. split; [exact Hj|]. now apply eqb_refl_not_nan. }
  destruct (map (fun i => (i, nth i ms 0%float)) (where_eq p mn)) as [|b0 rb] eqn:Epairs.
  { apply (in_map (fun i => (i, nth i ms 0%float))) in Hj'. rewrite Epairs in Hj'. destruct Hj'. }
  destruct (max_by_snd (b0 :: rb)) as [[i m]|e] eqn:Ebest; [|simpl in Ebest; discriminate].
  destruct (max_by_snd_spec _ _ Ebest) as [Hbin Hbmax].
  rewrite <- Epairs in Hbin, Hbmax. apply in_map_iff in Hbin.
  destruct Hbin as [i' [Heq Hi]]. inversion Heq; subst i' m.
  pose proof (Hidx i Hi) as Hlt.
  simpl.
  destruct (py_index_lt zs i) as [z [Hz Hzn]]; [lia|]. rewrite Hz. simpl.
  destruct (py_index_lt ls i) as [l [Hl Hln]]; [lia|]. rewrite Hl. simpl.
  exists i. split; [lia|]. split.
  { rewrite (nth_error_nth zs i 0%float Hzn), (nth_error_nth ls i ""%string Hln). reflexivity. }
  split; [|split].
  - apply where_eq_In in Hi. destruct Hi as [y [Hy Hye]].
    now rewrite (nth_error_nth p i 0%float Hy).
  - intros k Hk. apply Hall. now apply nth_In.
  - intros k Hk Hke. rewrite Forall_forall in Hbmax.
    apply (Hbmax (k, nth k ms 0%float)). apply (in_map (fun i => (i, nth i ms 0%float)) _ k).
    apply where_eq_In. exists (nth k p 0%float). split; [|exact Hke].
    now apply nth_error_nth'.
Qed.

(** C2 (counterexample): with no permutation sample the gated p-value
    series of ["cat"], whose compacted z-scores are [1.0; 2.0], is [[NaN]].
    Its minimum NaN is not greater than or equal to the threshold 0.25, yet
    [detect_change_point] emits no result, because the code tests
    [min_p_val < p_value_threshold], which is false on NaN. *)
Lemma selection_nan_minimum_no_result :
  (p <- get_p_value_series np_sum_seq "cat"
          (get_mean_shift_series np_sum_seq [1; 2]%float "last") 0 [1; 2]%float "last"
          identity_permutation ;;
   gate p [1; 2]%float 0%float) = Ret [(0 / 0)%float] /\
  np_min [(0 / 0)%float] = Ret (0 / 0)%float /\
  is_nan (0 / 0)%float = true /\
  (0.25 <=? 0 / 0)%float = false /\
  detect_change_point np_sum_seq "cat" ["2012_02"; "2012_03"]%string [Some 1%float; Some 2%float]
    0 0.25 0 "last" identity_permutation = Ret None.
Proof.
  split; [reflexivity|]. split; [reflexivity|]. split; [reflexivity|].
  split; [reflexivity|]. reflexivity.
Qed.

(** C2 (amended): for one label per z-score, a compacted series of at least
    two entries and permutation draws of its length, the gated p-value series
    [p] is computed without error and has a minimum [mn].  If [mn < threshold]
    fails (also when [mn] is NaN), [detect_change_point] emits no result.
    Otherwise it emits [(word, label, mn, mean shift, z-score)] at a compacted
    index [i] where [p] equals [mn], [mn] is at most every p-value, and no
    other index at the minimum has a strictly greater mean shift. *)
Theorem detect_change_point_selection np_sum word labels zs n thr gamma cmp permutation :
  length labels = length zs ->
  2 <= length (compact zs) ->
  (forall i, i < n -> length (permutation i (compact zs)) = length (compact zs)) ->
  let ms := get_mean_shift_series np_sum (compact zs) cmp in
  exists ls p mn,
    compact_labels labels zs = Ret ls /\
    (p0 <- get_p_value_series np_sum word ms n (compact zs) cmp permutation ;;
     gate p0 (compact zs) gamma) = Ret p /\
    length p = length (compact zs) - 1 /\
    np_min p = Ret mn /\
    ((mn <? thr)%float = false ->
     detect_change_point np_sum word labels zs n thr gamma cmp permutation = Ret None) /\
    ((mn <? thr)%float = true ->
     exists i, i < length p /\
       detect_change_point np_sum word labels zs n thr gamma cmp permutation =
         Ret (Some (word, nth i ls ""%string, mn, nth i ms 0%float, nth i (compact zs) 0%float)) /\
       (nth i p 0 =? mn)%float = true /\
       (forall k, k < length p -> (mn <=? nth k p 0)%float = true) /\
       (forall k, k < length p -> (nth k p 0 =? mn)%float = true ->
                  (nth i ms 0 <? nth k ms 0)%float = false)).
Proof.
  intros Hlen H2 Hperm ms.
  destruct (compact_labels_ok labels zs Hlen) as [ls [Hls Hlsl]].
  destruct (get_p_value_series_ok np_sum word (compact zs) n cmp permutation Hperm)
    as [p0 [Hp0 Hp0l]]. fold ms in Hp0.
  destruct (gate_ok p0 (compact zs) gamma) as [p [Hp Hpl]]; [lia|].
  assert (Hms : length ms = length (compact zs) - 1) by apply get_mean_shift_series_length.
  destruct (select_change_point_spec word ls (compact zs) ms p thr) as [mn [Hmn [Hno Hyes]]];
    [lia|lia|lia|destruct p; simpl in *; [lia|discriminate]|].
  assert (Hdet : detect_change_point np_sum word labels zs n thr gamma cmp permutation =
                 select_change_point word ls (compact zs) ms p thr).
  { unfold detect_change_point. rewrite Hls. cbn [py_bind].
    destruct ls as [|l0 ls']; [simpl in Hlsl; lia|]. cbv zeta.
    fold ms. rewrite Hp0. cbn [py_bind]. rewrite Hp. reflexivity. }
  exists ls, p, mn. split; [exact Hls|]. split.
  { fold ms. rewrite Hp0. simpl. exact Hp. }
  split; [lia|]. split; [exact Hmn|]. rewrite Hdet. split; [exact Hno|exact Hyes].
Qed.

Lemma detect_change_point_selection_witness :
  length ["2012_02"; "2012_03"; "2012_04"]%string = length [Some 1%float; Some 2%float; Some 4%float] /\
  2 <= length (compact [Some 1%float; Some 2%float; Some 4%float]) /\
  (forall i, i < 2 ->
     length (identity_permutation i (compact [Some 1%float; Some 2%float; Some 4%float])) =
     length (compact [Some 1%float; Some 2%float; Some 4%float])) /\
  let ms := get_mean_shift_series np_sum_seq (compact [Some 1%float; Some 2%float; Some 4%float]) "last"%string in
  exists ls p mn,
    compact_labels ["2012_02"; "2012_03"; "2012_04"]%string [Some 1%float; Some 2%float; Some 4%float] = Ret ls /\
    (p0 <- get_p_value_series np_sum_seq "cat"%string ms 2 (compact [Some 1%float; Some 2%float; Some 4%float]) "last"%string
            identity_permutation ;;
     gate p0 (compact [Some 1%float; Some 2%float; Some 4%float]) 0%float) = Ret p /\
    length p = length (compact [Some 1%float; Some 2%float; Some 4%float]) - 1 /\
    np_min p = Ret mn /\
    ((mn <? 0.5)%float = false ->
     detect_change_point np_sum_seq "cat"%string ["2012_02"; "2012_03"; "2012_04"]%string
       [Some 1%float; Some 2%float; Some 4%float] 2 0.5 0 "last"%string identity_permutation = Ret None) /\
    ((mn <? 0.5)%float = true ->
     exists i, i < length p /\
       detect_change_point np_sum_seq "cat"%string ["2012_02"; "2012_03"; "2012_04"]%string
         [Some 1%float; Some 2%float; Some 4%float] 2 0.5 0 "last"%string identity_permutation =
         Ret (Some ("cat"%string, nth i ls ""%string, mn, nth i ms 0%float,
                    nth i (compact [Some 1%float; Some 2%float; Some 4%float]) 0%float)) /\
       (nth i p 0 =? mn)%float = true /\
       (forall k, k < length p -> (mn <=? nth k p 0)%float = true) /\
       (forall k, k < length p -> (nth k p 0 =? mn)%float = true ->
                  (nth i ms 0 <? nth k ms 0)%float = false)).
Proof.
  split; [reflexivity|]. split; [vm_compute; lia|]. split; [intros; reflexivity|].
  apply (detect_change_point_selection np_sum_seq "cat"%string ["2012_02"; "2012_03"; "2012_04"]%string
           [Some 1%float; Some 2%float; Some 4%float] 2 0.5 0 "last"%string identity_permutation);
    [reflexivity|vm_compute; lia|intros; reflexivity].
Defined.

(** ** Exact integer arithmetic on binary64 values

    Counts below [2^53] are exact: adding [1.0] to the float of such an
    integer gives the float of its successor, [n / n] is [1.0], and
    [c / n <= 1.0] for [c <= n]. *)

Section FloatInt.
Local Open Scope Z_scope.

Lemma digits2_pos_size m : SpecFloat.digits2_pos m = Pos.size m.
Proof. induction m as [m IH|m IH|]; simpl; congruence. Qed.

Lemma digits2_pos_log2 m : Zpos (SpecFloat.digits2_pos m) = Z.log2 (Zpos m) + 1.
Proof.
  rewrite digits2_pos_size.
  destruct m as [m|m|]; [| |reflexivity]; change (Pos.size m~1) with (Pos.succ (Pos.size m));
    try change (Pos.size m~0) with (Pos.succ (Pos.size m)); rewrite Pos2Z.inj_succ; reflexivity.
Qed.

Lemma iter_pos_nat {A} (f : A -> A) p x :
  SpecFloat.iter_pos f p x = Nat.iter (Pos.to_nat p) f x.
Proof.
  revert x. induction p as [p IH|p IH|]; intros x; cbn [SpecFloat.iter_pos].
  - rewrite !IH, Pos2Nat.inj_xI, Nat.iter_succ_r.
    replace (2 * Pos.to_nat p)%nat with (Pos.to_nat p + Pos.to_nat p)%nat by lia.
    now rewrite Nat.iter_add.
  - rewrite !IH, Pos2Nat.inj_xO.
    replace (2 * Pos.to_nat p)%nat with (Pos.to_nat p + Pos.to_nat p)%nat by lia.
    now rewrite Nat.iter_add.
  - reflexivity.
Qed.

Lemma shr_1_m (x : SpecFloat.shr_record) :
  0 <= SpecFloat.shr_m x -> SpecFloat.shr_m (SpecFloat.shr_1 x) = SpecFloat.shr_m x / 2.
Proof.
  destruct x as [m r s]. simpl. intros H.
  destruct m as [|p|p]; [reflexivity| |lia].
  destruct p as [p|p|]; simpl.
  - rewrite Pos2Z.inj_xI, Z.mul_comm, Z.div_add_l by lia. reflexivity.
  - rewrite Pos2Z.inj_xO, Z.mul_comm, Z.div_mul by lia. reflexivity.
  - reflexivity.
Qed.

Lemma iter_shr_1_m k x :
  0 <= SpecFloat.shr_m x ->
  SpecFloat.shr_m (Nat.iter k SpecFloat.shr_1 x) = SpecFloat.shr_m x / 2 ^ Z.of_nat k.
Proof.
  intros H. induction k as [|k IH].
  - simpl. now rewrite Z.div_1_r.
  - rewrite Nat.iter_succ, shr_1_m, IH.
    + rewrite Z.div_div by lia. rewrite Nat2Z.inj_succ, Z.pow_succ_r by lia. f_equal. lia.
    + rewrite IH. apply Z.div_pos; lia.
Qed.

Lemma shr_1_even m :
  0 <= m -> Z.even m = true ->
  SpecFloat.shr_1 (SpecFloat.Build_shr_record m false false) =
  SpecFloat.Build_shr_record (m / 2) false false.
Proof.
  intros H He. destruct m as [|p|p]; [reflexivity| |lia].
  destruct p as [p|p|]; simpl in He; try discriminate. simpl.
  rewrite Pos2Z.inj_xO, Z.mul_comm, Z.div_mul by lia. reflexivity.
Qed.

Lemma iter_shr_1_exact k m :
  0 <= m -> (2 ^ Z.of_nat k | m) ->
  Nat.iter k SpecFloat.shr_1 (SpecFloat.Build_shr_record m false false) =
  SpecFloat.Build_shr_record (m / 2 ^ Z.of_nat k) false false.
Proof.
  intros H. induction k as [|k IH]; intros Hd.
  - simpl. now rewrite Z.div_1_r.
  - rewrite Nat.iter_succ, IH.
    + rewrite shr_1_even.
      * rewrite Z.div_div by lia. rewrite Nat2Z.inj_succ, Z.pow_succ_r by lia. f_equal. f_equal. lia.
      * apply Z.div_pos; lia.
      * destruct Hd as [c Hc]. rewrite Hc, Nat2Z.inj_succ, Z.pow_succ_r by lia.
        rewrite Z.mul_assoc, Z.div_mul by (apply Z.pow_nonzero; lia).
        apply Z.even_spec. exists c. lia.
    + destruct Hd as [c Hc]. exists (2 * c). rewrite Hc, Nat2Z.inj_succ, Z.pow_succ_r by lia. lia.
Qed.

Lemma round_nearest_even_cases m l :
  SpecFloat.round_nearest_even m l = m \/ SpecFloat.round_nearest_even m l = m + 1.
Proof.
  destruct l as [|[]]; simpl; auto. destruct (Z.even m); auto.
Qed.

Lemma shr_fexp_spec q e l :
  0 < q -> -1022 <= Z.log2 q + e ->
  exists r s,
    SpecFloat.shr_fexp prec emax q e l =
      (SpecFloat.Build_shr_record (q / 2 ^ shift_of q) r s, e + shift_of q) /\
    (l = SpecFloat.loc_Exact -> (2 ^ shift_of q | q) -> r = false /\ s = false) /\
    (shift_of q = 0 -> SpecFloat.loc_of_shr_record (SpecFloat.Build_shr_record q r s) = l).
Proof.
  intros Hq He. unfold SpecFloat.shr_fexp, shift_of.
  destruct q as [|p|p]; try lia.
  change (SpecFloat.Zdigits2 (Zpos p)) with (Zpos (SpecFloat.digits2_pos p)).
  rewrite digits2_pos_log2.
  pose proof (Z.log2_nonneg (Zpos p)).
  unfold SpecFloat.fexp, SpecFloat.emin, prec, emax.
  replace (Z.max (Z.log2 (Zpos p) + 1 + e - 53) (3 - 1024 - 53) - e)
    with (Z.log2 (Zpos p) + 1 - 53) by lia.
  destruct (Z.log2 (Zpos p) + 1 - 53) as [|k|k] eqn:Ek.
  - simpl Z.max. rewrite Z.pow_0_r, Z.div_1_r, Z.add_0_r.
    destruct l as [|[]]; simpl; eexists; eexists; split; try reflexivity; split; try discriminate; auto.
  - simpl SpecFloat.shr. rewrite iter_pos_nat.
    change (Z.max (Zpos k) 0) with (Zpos k).
    destruct (SpecFloat.shr_record_of_loc (Zpos p) l) as [m0 r0 s0] eqn:Erec.
    assert (Hm0 : m0 = Zpos p) by (destruct l as [|[]]; simpl in Erec; congruence).
    subst m0.
    destruct (Nat.iter (Pos.to_nat k) SpecFloat.shr_1 (SpecFloat.Build_shr_record (Zpos p) r0 s0))
      as [m1 r1 s1] eqn:Eit.
    pose proof (iter_shr_1_m (Pos.to_nat k) (SpecFloat.Build_shr_record (Zpos p) r0 s0)) as Hm.
    rewrite Eit in Hm. simpl in Hm. rewrite positive_nat_Z in Hm. rewrite Hm by lia.
    exists r1, s1. split; [reflexivity|]. split; [|discriminate].
    intros -> Hd. simpl in Erec. inversion Erec; subst r0 s0.
    rewrite iter_shr_1_exact in Eit by (try rewrite positive_nat_Z; auto; lia).
    inversion Eit. auto.
  - simpl Z.max. rewrite Z.pow_0_r, Z.div_1_r, Z.add_0_r.
    destruct l as [|[]]; simpl; eexists; eexists; split; try reflexivity; split; try discriminate; auto.
Qed.

Lemma shift_of_bounds q :
  0 < q -> 0 <= shift_of q /\ 1 <= q / 2 ^ shift_of q < 2 ^ 53 /\
           (0 < shift_of q -> 2 ^ 52 <= q / 2 ^ shift_of q).
Proof.
  intros Hq. unfold shift_of.
  pose proof (Z.log2_spec q Hq) as [Hlo Hhi]. pose proof (Z.log2_nonneg q).
  rewrite Z.pow_succ_r in Hhi by lia.
  destruct (Z.le_gt_cases (Z.log2 q + 1 - 53) 0) as [Hs|Hs].
  - rewrite Z.max_r by lia. rewrite Z.pow_0_r, Z.div_1_r. split; [lia|]. split; [|lia].
    split; [lia|]. apply (Z.lt_le_trans _ (2 * 2 ^ Z.log2 q)); [lia|].
    rewrite <- Z.pow_succ_r by lia. apply Z.pow_le_mono_r; lia.
  - rewrite Z.max_l by lia.
    assert (Hp : 2 ^ Z.log2 q = 2 ^ (Z.log2 q + 1 - 53) * 2 ^ 52).
    { rewrite <- Z.pow_add_r by lia. f_equal. lia. }
    assert (0 < 2 ^ (Z.log2 q + 1 - 53)) by (apply Z.pow_pos_nonneg; lia).
    split; [lia|]. split; [split|].
    + apply Z.div_le_lower_bound; [lia|]. nia.
    + apply Z.div_lt_upper_bound; [lia|]. nia.
    + intros _. apply Z.div_le_lower_bound; [lia|]. nia.
Qed.

Lemma shr_fexp_exact_small m e :
  0 < m <= 2 ^ 53 -> -1022 <= Z.log2 m + e ->
  SpecFloat.shr_fexp prec emax m e SpecFloat.loc_Exact =
    if m =? 2 ^ 53 then (SpecFloat.Build_shr_record (2 ^ 52) false false, e + 1)
    else (SpecFloat.Build_shr_record m false false, e).
Proof.
  intros Hm He. destruct (shr_fexp_spec m e SpecFloat.loc_Exact) as [r [s [E [Hex _]]]]; [lia|lia|].
  rewrite E. destruct (Z.eqb_spec m (2 ^ 53)) as [->|Hne].
  - assert (Hs : shift_of (2 ^ 53) = 1) by (unfold shift_of; rewrite Z.log2_pow2 by lia; reflexivity).
    rewrite Hs in *. destruct Hex as [-> ->]; [reflexivity|exists (2 ^ 52); reflexivity|].
    reflexivity.
  - assert (Hs : shift_of m = 0).
    { unfold shift_of. assert (Z.log2 m < 53) by (apply Z.log2_lt_pow2; lia). lia. }
    rewrite Hs in *. rewrite Z.pow_0_r, Z.div_1_r, Z.add_0_r.
    destruct Hex as [-> ->]; [reflexivity|apply Z.divide_1_l|]. reflexivity.
Qed.

Lemma shift_of_le q : 0 < q < 2 ^ 110 -> shift_of q <= 57.
Proof.
  intros Hq. unfold shift_of. assert (Z.log2 q < 110) by (apply Z.log2_lt_pow2; lia). lia.
Qed.

Lemma round_aux_gen q e l :
  0 < q -> -1022 <= Z.log2 q + e ->
  exists m1,
    (m1 = q / 2 ^ shift_of q \/ m1 = q / 2 ^ shift_of q + 1) /\
    (l = SpecFloat.loc_Exact -> (2 ^ shift_of q | q) -> m1 = q / 2 ^ shift_of q) /\
    0 < m1 <= 2 ^ 53 /\
    SpecFloat.binary_round_aux prec emax false q e l =
      if m1 =? 2 ^ 53 then
        (if Z.leb (e + shift_of q + 1) (emax - prec)
         then S754_finite false 4503599627370496 (e + shift_of q + 1) else S754_infinity false)
      else
        (if Z.leb (e + shift_of q) (emax - prec)
         then S754_finite false (Z.to_pos m1) (e + shift_of q) else S754_infinity false).
Proof.
  intros Hq He. pose proof (shift_of_bounds q Hq) as [Hs0 [Hm' Hm52]].
  destruct (shr_fexp_spec q e l) as [r [s [E [Hex _]]]]; [lia|lia|].
  unfold SpecFloat.binary_round_aux. rewrite E.
  set (m' := q / 2 ^ shift_of q) in *.
  set (m1 := SpecFloat.round_nearest_even (SpecFloat.shr_m (SpecFloat.Build_shr_record m' r s))
               (SpecFloat.loc_of_shr_record (SpecFloat.Build_shr_record m' r s))).
  assert (Hc : m1 = m' \/ m1 = m' + 1) by apply round_nearest_even_cases.
  assert (Hx : l = SpecFloat.loc_Exact -> (2 ^ shift_of q | q) -> m1 = m').
  { intros Hl Hd. destruct (Hex Hl Hd) as [-> ->]. reflexivity. }
  exists m1. split; [exact Hc|]. split; [exact Hx|].
  assert (Hb : 0 < m1 <= 2 ^ 53) by lia. split; [exact Hb|].
  assert (Hlm : -1022 <= Z.log2 m1 + (e + shift_of q)).
  { destruct (Z.eq_dec (shift_of q) 0) as [H0|H0].
    - assert (Hq' : m' = q) by (unfold m'; rewrite H0, Z.pow_0_r, Z.div_1_r; reflexivity).
      assert (Z.log2 q <= Z.log2 m1) by (apply Z.log2_le_mono; lia). lia.
    - specialize (Hm52 ltac:(lia)).
      assert (Hl2 : Z.log2 (2 ^ 52) <= Z.log2 m1) by (apply Z.log2_le_mono; lia).
      rewrite Z.log2_pow2 in Hl2 by lia.
      unfold shift_of in *. lia. }
  cbv zeta. change (SpecFloat.round_nearest_even _ _) with m1.
  rewrite (shr_fexp_exact_small m1 (e + shift_of q)) by lia.
  destruct (Z.eqb_spec m1 (2 ^ 53)) as [Heq|Hne]; simpl SpecFloat.shr_m.
  - reflexivity.
  - destruct m1 as [|p|p] eqn:Em; try lia. reflexivity.
Qed.

Lemma round_aux_spec q e l :
  0 < q < 2 ^ 110 -> -1000 <= e <= 900 ->
  exists m1,
    (m1 = q / 2 ^ shift_of q \/ m1 = q / 2 ^ shift_of q + 1) /\
    (l = SpecFloat.loc_Exact -> (2 ^ shift_of q | q) -> m1 = q / 2 ^ shift_of q) /\
    0 < m1 <= 2 ^ 53 /\
    SpecFloat.binary_round_aux prec emax false q e l =
      if m1 =? 2 ^ 53 then S754_finite false 4503599627370496 (e + shift_of q + 1)
      else S754_finite false (Z.to_pos m1) (e + shift_of q).
Proof.
  intros Hq He. pose proof (shift_of_bounds q (proj1 Hq)) as [Hs0 _].
  pose proof (shift_of_le q Hq) as Hs7. pose proof (Z.log2_nonneg q).
  destruct (round_aux_gen q e l) as [m1 [Hc [Hx [Hb Hr]]]]; [lia|lia|].
  exists m1. split; [exact Hc|]. split; [exact Hx|]. split; [exact Hb|].
  rewrite Hr. unfold emax, prec.
  replace (Z.leb (e + shift_of q + 1) (1024 - 53)) with true by (symmetry; apply Z.leb_le; lia).
  replace (Z.leb (e + shift_of q) (1024 - 53)) with true by (symmetry; apply Z.leb_le; lia).
  reflexivity.
Qed.

Lemma iter_xO_mul p d : Zpos (Pos.iter xO p d) = Zpos p * 2 ^ Zpos d.
Proof.
  induction d as [|d IH] using Pos.peano_ind.
  - simpl Pos.iter. rewrite Pos2Z.inj_xO. lia.
  - rewrite Pos.iter_succ, Pos2Z.inj_xO, IH, Pos2Z.inj_succ, Z.pow_succ_r by lia. lia.
Qed.

Lemma int_mantissa_bounds n :
  1 <= n < 2 ^ 53 ->
  0 <= Z.log2 n <= 52 /\ 2 ^ 52 <= n * 2 ^ (52 - Z.log2 n) < 2 ^ 53 /\
  Z.log2 (n * 2 ^ (52 - Z.log2 n)) = 52.
Proof.
  intros Hn. pose proof (Z.log2_spec n ltac:(lia)) as [Hlo Hhi].
  assert (Hl : Z.log2 n < 53) by (apply Z.log2_lt_pow2; lia).
  pose proof (Z.log2_nonneg n).
  assert (Hp : 2 ^ 52 = 2 ^ Z.log2 n * 2 ^ (52 - Z.log2 n)) by (rewrite <- Z.pow_add_r by lia; f_equal; lia).
  assert (Hp' : 2 ^ 53 = 2 ^ (Z.log2 n + 1) * 2 ^ (52 - Z.log2 n)) by (rewrite <- Z.pow_add_r by lia; f_equal; lia).
  assert (0 < 2 ^ (52 - Z.log2 n)) by (apply Z.pow_pos_nonneg; lia).
  split; [lia|]. split; [nia|]. rewrite Z.log2_mul_pow2 by lia. lia.
Qed.

Lemma binary_round_int (p : positive) e :
  Zpos p < 2 ^ 53 -> -900 <= e <= 900 ->
  SpecFloat.binary_round prec emax false p e =
    S754_finite false (Z.to_pos (Zpos p * 2 ^ (52 - Z.log2 (Zpos p))))
      (e + Z.log2 (Zpos p) - 52).
Proof.
  intros Hp He. pose proof (int_mantissa_bounds (Zpos p) ltac:(lia)) as [Hl [HM HlM]].
  unfold SpecFloat.binary_round. rewrite digits2_pos_log2.
  unfold SpecFloat.fexp, SpecFloat.emin, prec, emax.
  replace (Z.max (Z.log2 (Zpos p) + 1 + e - 53) (3 - 1024 - 53)) with (e + Z.log2 (Zpos p) - 52) by lia.
  unfold SpecFloat.shl_align.
  replace (e + Z.log2 (Zpos p) - 52 - e) with (Z.log2 (Zpos p) - 52) by lia.
  set (M := Zpos p * 2 ^ (52 - Z.log2 (Zpos p))) in *.
  assert (Hq : exists mz ez,
     match Z.log2 (Zpos p) - 52 with
     | Zneg d => (Pos.iter xO p d, e + Z.log2 (Zpos p) - 52)
     | _ => (p, e)
     end = (mz, ez) /\ Zpos mz = M /\ ez = e + Z.log2 (Zpos p) - 52).
  { destruct (Z.log2 (Zpos p) - 52) as [|d|d] eqn:Ed.
    - exists p, e. split; [reflexivity|]. unfold M. replace (52 - Z.log2 (Zpos p)) with 0 by lia. lia.
    - lia.
    - exists (Pos.iter xO p d), (e + Z.log2 (Zpos p) - 52). split; [reflexivity|].
      split; [|reflexivity]. rewrite iter_xO_mul. unfold M. f_equal. f_equal. lia. }
  destruct Hq as [mz [ez [-> [Hmz ->]]]]. cbv beta iota zeta.
  destruct (round_aux_spec (Zpos mz) (e + Z.log2 (Zpos p) - 52) SpecFloat.loc_Exact)
    as [m1 [_ [Hx [Hb Hr]]]]; [lia|lia|].
  unfold prec, emax in Hr. rewrite Hr.
  assert (Hs : shift_of (Zpos mz) = 0) by (unfold shift_of; rewrite Hmz, HlM; reflexivity).
  rewrite Hs in *. rewrite Hx by (auto; apply Z.divide_1_l).
  rewrite Z.pow_0_r, Z.div_1_r, Hmz. replace (M =? 2 ^ 53) with false by (symmetry; apply Z.eqb_neq; lia).
  rewrite Z.add_0_r. reflexivity.
Qed.

Lemma of_Z_int_sf n :
  1 <= n < 2 ^ 53 -> Prim2SF (of_uint63 (Uint63.of_Z n)) = int_sf n.
Proof.
  intros Hn. rewrite of_uint63_spec, Uint63.of_Z_spec.
  rewrite Z.mod_small by (unfold Uint63.wB, Uint63.size; simpl; lia).
  destruct n as [|p|p]; try lia. unfold SpecFloat.binary_normalize.
  rewrite binary_round_int by lia. reflexivity.
Qed.

Lemma int_sf_one : int_sf 1 = S754_finite false 4503599627370496 (-52).
Proof. reflexivity. Qed.

Lemma binary_round_scaled m :
  1 <= m < 2 ^ 53 ->
  SpecFloat.binary_round prec emax false (Z.to_pos (m * 2 ^ 52)) (-52) = int_sf m.
Proof.
  intros Hm. pose proof (int_mantissa_bounds m Hm) as [Hl [HM HlM]].
  assert (HP : Zpos (Z.to_pos (m * 2 ^ 52)) = m * 2 ^ 52) by (rewrite Z2Pos.id; lia).
  assert (HlP : Z.log2 (m * 2 ^ 52) = Z.log2 m + 52) by (rewrite Z.log2_mul_pow2 by lia; lia).
  unfold SpecFloat.binary_round. rewrite digits2_pos_log2, HP, HlP.
  unfold SpecFloat.fexp, SpecFloat.emin, prec, emax.
  replace (Z.max (Z.log2 m + 52 + 1 + -52 - 53) (3 - 1024 - 53)) with (Z.log2 m - 52) by lia.
  unfold SpecFloat.shl_align.
  replace (Z.log2 m - 52 - -52) with (Z.log2 m) by lia.
  replace (match Z.log2 m with
           | Zneg d => (Pos.iter xO (Z.to_pos (m * 2 ^ 52)) d, Z.log2 m - 52)
           | _ => (Z.to_pos (m * 2 ^ 52), -52)
           end) with (Z.to_pos (m * 2 ^ 52), -52)
    by (destruct (Z.log2 m); reflexivity || lia).
  cbv beta iota zeta. rewrite HP.
  destruct (round_aux_spec (m * 2 ^ 52) (-52) SpecFloat.loc_Exact)
    as [m1 [_ [Hx [Hb Hr]]]]; [lia|lia|].
  unfold prec, emax in Hr. rewrite Hr.
  assert (Hs : shift_of (m * 2 ^ 52) = Z.log2 m) by (unfold shift_of; rewrite HlP; lia).
  assert (Hq : m * 2 ^ 52 / 2 ^ shift_of (m * 2 ^ 52) = m * 2 ^ (52 - Z.log2 m)).
  { rewrite Hs. replace (2 ^ 52) with (2 ^ (52 - Z.log2 m) * 2 ^ Z.log2 m) at 1
      by (rewrite <- Z.pow_add_r by lia; f_equal; lia).
    rewrite Z.mul_assoc, Z.div_mul by (apply Z.pow_nonzero; lia). reflexivity. }
  rewrite Hx; [|reflexivity|].
  2:{ exists (m * 2 ^ (52 - Z.log2 m)). rewrite Hs.
      rewrite <- Z.mul_assoc, <- Z.pow_add_r by lia. f_equal. f_equal. lia. }
  rewrite Hq. replace (m * 2 ^ (52 - Z.log2 m) =? 2 ^ 53) with false by (symmetry; apply Z.eqb_neq; lia).
  unfold int_sf. f_equal. lia.
Qed.

Lemma add_int_sf_one n :
  1 <= n -> n + 1 < 2 ^ 53 -> SF64add (int_sf n) (int_sf 1) = int_sf (n + 1).
Proof.
  intros H1 H2. pose proof (int_mantissa_bounds n ltac:(lia)) as [Hl [HM HlM]].
  rewrite int_sf_one. unfold SF64add, SpecFloat.SFadd. unfold int_sf at 1.
  replace (Z.min (Z.log2 n - 52) (-52)) with (-52) by lia.
  assert (Hshl : Zpos (fst (SpecFloat.shl_align (Z.to_pos (n * 2 ^ (52 - Z.log2 n)))
                                                (Z.log2 n - 52) (-52))) = n * 2 ^ 52).
  { unfold SpecFloat.shl_align. replace (-52 - (Z.log2 n - 52)) with (- Z.log2 n) by lia.
    assert (Hpos : 0 < n * 2 ^ (52 - Z.log2 n)) by lia.
    destruct (Z.log2 n) as [|d|d] eqn:Ed; try lia; cbn [Z.opp fst].
    - rewrite Z2Pos.id by exact Hpos. reflexivity.
    - rewrite iter_xO_mul, Z2Pos.id by exact Hpos.
      rewrite <- Z.mul_assoc, <- Z.pow_add_r by lia.
      f_equal. f_equal. lia. }
  assert (Hshl1 : fst (SpecFloat.shl_align 4503599627370496 (-52) (-52)) = 4503599627370496%positive)
    by reflexivity.
  unfold SpecFloat.cond_Zopp. rewrite Hshl, Hshl1.
  replace (n * 2 ^ 52 + Zpos 4503599627370496) with (Zpos (Z.to_pos ((n + 1) * 2 ^ 52)))
    by (rewrite Z2Pos.id by lia; lia).
  unfold SpecFloat.binary_normalize. apply binary_round_scaled. lia.
Qed.

Lemma new_location_exact m : SpecFloat.new_location m 0 = SpecFloat.loc_Exact.
Proof. unfold SpecFloat.new_location. destruct (Z.even m); reflexivity. Qed.

Lemma div_core_53 (M1 M2 : positive) E1 E2 :
  Z.log2 (Zpos M1) = 52 -> Z.log2 (Zpos M2) = 52 -> -1021 <= E1 - E2 ->
  SpecFloat.SFdiv_core_binary prec emax (Zpos M1) E1 (Zpos M2) E2 =
    (Zpos M1 * 2 ^ 53 / Zpos M2, E1 - E2 - 53,
     SpecFloat.new_location (Zpos M2) (Zpos M1 * 2 ^ 53 mod Zpos M2)).
Proof.
  intros H1 H2 HE. unfold SpecFloat.SFdiv_core_binary.
  change (SpecFloat.Zdigits2 (Zpos M1)) with (Zpos (SpecFloat.digits2_pos M1)).
  change (SpecFloat.Zdigits2 (Zpos M2)) with (Zpos (SpecFloat.digits2_pos M2)).
  rewrite !digits2_pos_log2, H1, H2.
  unfold SpecFloat.fexp, SpecFloat.emin, prec, emax.
  replace (Z.min (Z.max (52 + 1 + E1 - (52 + 1 + E2) - 53) (3 - 1024 - 53)) (E1 - E2))
    with (E1 - E2 - 53) by lia.
  replace (E1 - E2 - (E1 - E2 - 53)) with 53 by lia.
  rewrite Z.shiftl_mul_pow2 by lia.
  unfold Z.div, Z.modulo. destruct (Z.div_eucl (Zpos M1 * 2 ^ 53) (Zpos M2)). reflexivity.
Qed.

Lemma SFleb_same_exp (a b : positive) e :
  Zpos a <= Zpos b ->
  SpecFloat.SFleb (S754_finite false a e) (S754_finite false b e) = true.
Proof.
  intros H. unfold SpecFloat.SFleb. cbn [SpecFloat.SFcompare]. rewrite Z.compare_refl.
  change (Pos.compare_cont Eq a b) with (Pos.compare a b).
  destruct (Pos.compare_spec a b) as [E|E|E]; try reflexivity.
  pose proof (Pos2Z.pos_lt_pos _ _ E). lia.
Qed.

Lemma SFleb_lt_exp (a b : positive) ea eb :
  ea < eb -> SpecFloat.SFleb (S754_finite false a ea) (S754_finite false b eb) = true.
Proof.
  intros H. unfold SpecFloat.SFleb. cbn [SpecFloat.SFcompare].
  destruct (Z.compare_spec ea eb); try lia; reflexivity.
Qed.

Lemma SFleb_one_finite (a : positive) ea :
  ea < -52 \/ (ea = -52 /\ Zpos a <= 2 ^ 52) ->
  SpecFloat.SFleb (S754_finite false a ea) (S754_finite false 4503599627370496 (-52)) = true.
Proof.
  intros [H|[-> H]]; [now apply SFleb_lt_exp|].
  apply SFleb_same_exp. exact H.
Qed.

Lemma div_self_53 (M : positive) E :
  Z.log2 (Zpos M) = 52 -> -450 <= E <= 450 ->
  SF64div (S754_finite false M E) (S754_finite false M E) =
    S754_finite false 4503599627370496 (-52).
Proof.
  intros HM HE. unfold SF64div, SpecFloat.SFdiv.
  rewrite div_core_53 by lia.
  rewrite (Z.mul_comm (Zpos M)), Z.div_mul, Z.mod_mul by lia.
  rewrite new_location_exact. cbv beta iota zeta. simpl xorb.
  replace (E - E - 53) with (-53) by lia.
  destruct (round_aux_spec (2 ^ 53) (-53) SpecFloat.loc_Exact) as [m1 [_ [Hx [Hb ->]]]]; [lia|lia|].
  assert (Hs : shift_of (2 ^ 53) = 1) by (unfold shift_of; rewrite Z.log2_pow2 by lia; reflexivity).
  rewrite Hs in *. rewrite Hx by (auto; exists (2 ^ 52); reflexivity). reflexivity.
Qed.

Lemma div_le_one_53 (M1 M2 : positive) E1 E2 :
  Z.log2 (Zpos M1) = 52 -> Z.log2 (Zpos M2) = 52 -> E1 <= E2 <= E1 + 1021 ->
  Zpos M1 * 2 ^ 53 <= Zpos M2 * 2 ^ (53 + E2 - E1) ->
  SpecFloat.SFleb (SF64div (S754_finite false M1 E1) (S754_finite false M2 E2))
                  (S754_finite false 4503599627370496 (-52)) = true.
Proof.
  intros H1 H2 HE Hle. unfold SF64div, SpecFloat.SFdiv.
  rewrite div_core_53 by lia. cbv beta iota zeta. simpl xorb.
  set (K := 53 + E2 - E1) in *.
  pose proof (Z.log2_spec (Zpos M1) ltac:(lia)) as [L1 U1].
  pose proof (Z.log2_spec (Zpos M2) ltac:(lia)) as [L2 U2].
  rewrite H1 in L1, U1. rewrite H2 in L2, U2. rewrite Z.pow_succ_r in U1, U2 by lia.
  assert (HK : 2 ^ 53 <= 2 ^ K) by (apply Z.pow_le_mono_r; lia).
  set (q := Zpos M1 * 2 ^ 53 / Zpos M2).
  set (r := Zpos M1 * 2 ^ 53 mod Zpos M2).
  assert (Hdm : Zpos M1 * 2 ^ 53 = Zpos M2 * q + r) by (apply Z.div_mod; lia).
  assert (Hr : 0 <= r < Zpos M2) by (apply Z.mod_pos_bound; lia).
  assert (Hq : q <= 2 ^ K) by (apply Z.div_le_upper_bound; lia).
  assert (Hq1 : 1 <= q) by (apply Z.div_le_lower_bound; lia).
  assert (Hqr : q = 2 ^ K -> r = 0) by nia.
  assert (Hq52 : 2 ^ 52 <= q) by (apply Z.div_le_lower_bound; lia).
  assert (Hq54 : q < 2 ^ 54) by (apply Z.div_lt_upper_bound; lia).
  assert (Hlq : 52 <= Z.log2 q <= 53).
  { split.
    - rewrite <- (Z.log2_pow2 52) by lia. apply Z.log2_le_mono. lia.
    - assert (Z.log2 q < 54) by (apply Z.log2_lt_pow2; lia). lia. }
  replace (E1 - E2 - 53) with (- K) by (unfold K; lia).
  destruct (round_aux_gen q (- K) (SpecFloat.new_location (Zpos M2) r)) as [m1 [Hc [Hx [Hb Hround]]]];
    [lia|lia|].
  pose proof (shift_of_bounds q ltac:(lia)) as [Hs0 [Hm' Hm52]].
  assert (Hs1 : shift_of q <= 1) by (unfold shift_of; lia).
  rewrite Hround. unfold emax, prec.
  replace (Z.leb (- K + shift_of q + 1) (1024 - 53)) with true by (symmetry; apply Z.leb_le; lia).
  replace (Z.leb (- K + shift_of q) (1024 - 53)) with true by (symmetry; apply Z.leb_le; lia).
  set (s := shift_of q) in *. set (m' := q / 2 ^ s) in *.
  assert (Hms : 2 ^ s * m' <= q) by (apply Z.mul_div_le; lia).
  assert (H2s : 0 < 2 ^ s) by (apply Z.pow_pos_nonneg; lia).
  assert (Hexact : q = 2 ^ K -> s <= K -> m1 = m').
  { intros HqK HsK. apply Hx.
    - rewrite Hqr by exact HqK. apply new_location_exact.
    - rewrite HqK. exists (2 ^ (K - s)). rewrite <- Z.pow_add_r by lia. f_equal. lia. }
  destruct (Z.eq_dec s 0) as [Hs|Hs].
  - destruct (Z.eqb_spec m1 (2 ^ 53)).
    + apply SFleb_one_finite.
      destruct (Z.eq_dec K 53); [right; split; [lia|reflexivity]|left; lia].
    + apply SFleb_one_finite. left. lia.
  - specialize (Hm52 ltac:(lia)).
    assert (HsK : 52 + s <= K).
    { destruct (Z.le_gt_cases (52 + s) K) as [?|HK']; [assumption|].
      assert (2 ^ K < 2 ^ (52 + s)) by (apply Z.pow_lt_mono_r; lia).
      rewrite Z.pow_add_r in * by lia. nia. }
    destruct (Z.eq_dec (52 + s) K) as [Heq|Hne].
    + assert (HK52 : 2 ^ K = 2 ^ 52 * 2 ^ s) by (rewrite <- Z.pow_add_r by lia; f_equal; lia).
      assert (Hm'e : m' = 2 ^ 52) by nia.
      assert (HqK : q = 2 ^ K) by nia.
      rewrite (Hexact HqK ltac:(lia)), Hm'e.
      replace (2 ^ 52 =? 2 ^ 53) with false by reflexivity.
      apply SFleb_one_finite. right. split; [lia|]. rewrite Z2Pos.id by lia. lia.
    + destruct (Z.eqb_spec m1 (2 ^ 53)).
      * apply SFleb_one_finite.
        destruct (Z.eq_dec (53 + s) K); [right; split; [lia|reflexivity]|left; lia].
      * apply SFleb_one_finite. left. lia.
Qed.

Lemma Prim2SF_one : Prim2SF 1%float = S754_finite false 4503599627370496 (-52).
Proof. reflexivity. Qed.

Lemma float_of_nat_small n :
  Z.of_nat n < 2 ^ 63 -> float_of_nat n = of_uint63 (Uint63.of_Z (Z.of_nat n)).
Proof.
  intros H. unfold float_of_nat. cbv zeta.
  replace (Z.log2 (Z.of_nat n) <? 63) with true; [reflexivity|].
  symmetry. apply Z.ltb_lt. destruct (Z.eq_dec (Z.of_nat n) 0) as [E|E].
  - rewrite E. reflexivity.
  - apply Z.log2_lt_pow2; lia.
Qed.

Lemma Prim2SF_float_of_nat n :
  (1 <= n)%nat -> Z.of_nat n < 2 ^ 53 -> Prim2SF (float_of_nat n) = int_sf (Z.of_nat n).
Proof. intros H1 H2. rewrite float_of_nat_small by lia. apply of_Z_int_sf. lia. Qed.

Lemma float_of_nat_succ n :
  Z.of_nat n + 1 < 2 ^ 53 -> (float_of_nat n + 1)%float = float_of_nat (S n).
Proof.
  intros H. destruct n as [|n]; [reflexivity|].
  apply Prim2SF_inj. rewrite add_spec, !Prim2SF_float_of_nat by lia.
  rewrite Prim2SF_one, <- int_sf_one, add_int_sf_one by lia.
  f_equal. lia.
Qed.

Lemma float_of_nat_div_self n :
  (1 <= n)%nat -> Z.of_nat n < 2 ^ 53 -> (float_of_nat n / float_of_nat n)%float = 1%float.
Proof.
  intros H1 H2. apply Prim2SF_inj. rewrite div_spec, Prim2SF_float_of_nat by lia.
  rewrite Prim2SF_one. pose proof (int_mantissa_bounds (Z.of_nat n) ltac:(lia)) as [Hl [HM HlM]].
  unfold int_sf. apply div_self_53; [rewrite Z2Pos.id by lia; exact HlM|lia].
Qed.

Lemma float_of_nat_div_le_one c n :
  (c <= n)%nat -> (1 <= n)%nat -> Z.of_nat n < 2 ^ 53 ->
  (float_of_nat c / float_of_nat n <=? 1)%float = true.
Proof.
  intros Hc H1 H2. rewrite leb_spec, div_spec, Prim2SF_one.
  rewrite (Prim2SF_float_of_nat n) by lia.
  destruct c as [|c]; [reflexivity|].
  rewrite Prim2SF_float_of_nat by lia.
  set (a := Z.of_nat (S c)). set (b := Z.of_nat n).
  assert (Hab : 1 <= a <= b) by (unfold a, b; lia).
  pose proof (int_mantissa_bounds a ltac:(lia)) as [Hla [HMa HlMa]].
  pose proof (int_mantissa_bounds b ltac:(lia)) as [Hlb [HMb HlMb]].
  assert (Hlog : Z.log2 a <= Z.log2 b) by (apply Z.log2_le_mono; lia).
  unfold int_sf. apply div_le_one_53; try (rewrite Z2Pos.id by lia); try lia.
  rewrite Z2Pos.id by lia.
  replace (53 + (Z.log2 b - 52) - (Z.log2 a - 52)) with ((Z.log2 b - Z.log2 a) + 53) by lia.
  rewrite <- Z.mul_assoc, <- !Z.pow_add_r by lia.
  replace (52 - Z.log2 a + 53) with (52 - Z.log2 b + (Z.log2 b - Z.log2 a + 53)) by lia.
  rewrite Z.pow_add_r by lia.
  assert (0 < 2 ^ (52 - Z.log2 b)) by (apply Z.pow_pos_nonneg; lia).
  assert (0 < 2 ^ (Z.log2 b - Z.log2 a + 53)) by (apply Z.pow_pos_nonneg; lia).
  nia.
Qed.

Lemma Zdigits2_le m k : 0 <= m < 2 ^ k -> 0 <= k -> SpecFloat.Zdigits2 m <= k.
Proof.
  intros Hm Hk. destruct m as [|p|p]; [simpl; lia| |lia].
  change (SpecFloat.Zdigits2 (Zpos p)) with (Zpos (SpecFloat.digits2_pos p)).
  rewrite digits2_pos_log2. assert (Z.log2 (Zpos p) < k) by (apply Z.log2_lt_pow2; lia). lia.
Qed.

Lemma shr_record_of_loc_m m l : SpecFloat.shr_m (SpecFloat.shr_record_of_loc m l) = m.
Proof. destruct l as [|[]]; reflexivity. Qed.

(** [shr_fexp] in general: the exponent becomes the larger of [e] and the
    canonical exponent, and the mantissa does not grow. *)
Lemma shr_fexp_exp m e l :
  0 <= m ->
  exists r,
    SpecFloat.shr_fexp prec emax m e l =
      (r, Z.max e (SpecFloat.fexp prec emax (SpecFloat.Zdigits2 m + e))) /\
    0 <= SpecFloat.shr_m r <= m.
Proof.
  intros Hm. unfold SpecFloat.shr_fexp, SpecFloat.shr.
  destruct (SpecFloat.fexp prec emax (SpecFloat.Zdigits2 m + e) - e) as [|k|k] eqn:Ek.
  - exists (SpecFloat.shr_record_of_loc m l). split; [f_equal; lia|].
    rewrite shr_record_of_loc_m. lia.
  - exists (SpecFloat.iter_pos SpecFloat.shr_1 k (SpecFloat.shr_record_of_loc m l)).
    split; [f_equal; lia|].
    rewrite iter_pos_nat, iter_shr_1_m, shr_record_of_loc_m by (rewrite shr_record_of_loc_m; lia).
    rewrite positive_nat_Z.
    assert (0 < 2 ^ Zpos k) by (apply Z.pow_pos_nonneg; lia).
    split; [apply Z.div_pos; lia|]. apply Z.div_le_upper_bound; nia.
  - exists (SpecFloat.shr_record_of_loc m l). split; [f_equal; lia|].
    rewrite shr_record_of_loc_m. lia.
Qed.

(** Rounding at the least exponent a mantissa below [2^53] gives zero or a
    float below one. *)
Lemma round_aux_tiny q l :
  0 <= q < 2 ^ 53 ->
  SpecFloat.SFleb (SpecFloat.binary_round_aux prec emax false q (-1074) l)
                  (S754_finite false 4503599627370496 (-52)) = true.
Proof.
  intros Hq. unfold SpecFloat.binary_round_aux.
  destruct (shr_fexp_exp q (-1074) l) as [r [E Hr]]; [lia|]. rewrite E.
  assert (Hd : SpecFloat.Zdigits2 q <= 53) by (apply Zdigits2_le; lia).
  replace (Z.max (-1074) (SpecFloat.fexp prec emax (SpecFloat.Zdigits2 q + -1074))) with (-1074)
    by (unfold SpecFloat.fexp, SpecFloat.emin, prec, emax; lia).
  cbv beta iota zeta.
  set (m1 := SpecFloat.round_nearest_even (SpecFloat.shr_m r) (SpecFloat.loc_of_shr_record r)).
  assert (Hm1 : 0 <= m1 <= 2 ^ 53)
    by (pose proof (round_nearest_even_cases (SpecFloat.shr_m r) (SpecFloat.loc_of_shr_record r)); lia).
  destruct (shr_fexp_exp m1 (-1074) SpecFloat.loc_Exact) as [r2 [E2 Hr2]]; [lia|]. rewrite E2.
  assert (Hd2 : SpecFloat.Zdigits2 m1 <= 54) by (apply Zdigits2_le; lia).
  set (e2 := Z.max (-1074) (SpecFloat.fexp prec emax (SpecFloat.Zdigits2 m1 + -1074))).
  assert (He2 : e2 <= -1073) by (unfold e2, SpecFloat.fexp, SpecFloat.emin, prec, emax; lia).
  cbv beta iota zeta.
  destruct (SpecFloat.shr_m r2) as [|p|p] eqn:Em; [reflexivity| |lia].
  replace (Z.leb e2 (emax - prec)) with true by (symmetry; apply Z.leb_le; unfold emax, prec; lia).
  apply SFleb_lt_exp. lia.
Qed.

Lemma div_core_tiny (M1 M2 : positive) E1 E2 :
  Z.log2 (Zpos M1) = 52 -> Z.log2 (Zpos M2) = 52 -> -1074 <= E1 - E2 < -1021 ->
  SpecFloat.SFdiv_core_binary prec emax (Zpos M1) E1 (Zpos M2) E2 =
    (Zpos M1 * 2 ^ (E1 - E2 + 1074) / Zpos M2, -1074,
     SpecFloat.new_location (Zpos M2) (Zpos M1 * 2 ^ (E1 - E2 + 1074) mod Zpos M2)).
Proof.
  intros H1 H2 HE. unfold SpecFloat.SFdiv_core_binary.
  change (SpecFloat.Zdigits2 (Zpos M1)) with (Zpos (SpecFloat.digits2_pos M1)).
  change (SpecFloat.Zdigits2 (Zpos M2)) with (Zpos (SpecFloat.digits2_pos M2)).
  rewrite !digits2_pos_log2, H1, H2.
  unfold SpecFloat.fexp, SpecFloat.emin, prec, emax.
  replace (Z.min (Z.max (52 + 1 + E1 - (52 + 1 + E2) - 53) (3 - 1024 - 53)) (E1 - E2))
    with (-1074) by lia.
  replace (E1 - E2 - -1074) with (E1 - E2 + 1074) by lia.
  destruct (E1 - E2 + 1074) as [|k|k] eqn:Es; try lia.
  - rewrite Z.pow_0_r, Z.mul_1_r. unfold Z.div, Z.modulo.
    destruct (Z.div_eucl (Zpos M1) (Zpos M2)). reflexivity.
  - rewrite Z.shiftl_mul_pow2 by lia. unfold Z.div, Z.modulo.
    destruct (Z.div_eucl (Zpos M1 * 2 ^ Zpos k) (Zpos M2)). reflexivity.
Qed.

Lemma div_tiny_le_one (M1 M2 : positive) E1 E2 :
  Z.log2 (Zpos M1) = 52 -> Z.log2 (Zpos M2) = 52 -> E1 + 1021 < E2 <= E1 + 1074 ->
  SpecFloat.SFleb (SF64div (S754_finite false M1 E1) (S754_finite false M2 E2))
                  (S754_finite false 4503599627370496 (-52)) = true.
Proof.
  intros H1 H2 HE. unfold SF64div, SpecFloat.SFdiv.
  rewrite div_core_tiny by lia. cbv beta iota zeta. simpl xorb.
  pose proof (Z.log2_spec (Zpos M1) ltac:(lia)) as [L1 U1].
  pose proof (Z.log2_spec (Zpos M2) ltac:(lia)) as [L2 U2].
  rewrite H1 in L1, U1. rewrite H2 in L2, U2. rewrite Z.pow_succ_r in U1, U2 by lia.
  assert (Hs : 2 ^ (E1 - E2 + 1074) <= 2 ^ 52) by (apply Z.pow_le_mono_r; lia).
  assert (Hs0 : 0 < 2 ^ (E1 - E2 + 1074)) by (apply Z.pow_pos_nonneg; lia).
  apply round_aux_tiny. split.
  - apply Z.div_pos; lia.
  - apply Z.div_lt_upper_bound; [lia|]. nia.
Qed.

(** Division of two normal positive floats, the first at most the second,
    is at most one. *)
Lemma div_le_one_gen (M1 M2 : positive) E1 E2 :
  Z.log2 (Zpos M1) = 52 -> Z.log2 (Zpos M2) = 52 -> E1 <= E2 <= E1 + 1074 ->
  Zpos M1 * 2 ^ 53 <= Zpos M2 * 2 ^ (53 + E2 - E1) ->
  SpecFloat.SFleb (SF64div (S754_finite false M1 E1) (S754_finite false M2 E2))
                  (S754_finite false 4503599627370496 (-52)) = true.
Proof.
  intros H1 H2 HE Hle. destruct (Z.le_gt_cases E2 (E1 + 1021)).
  - apply div_le_one_53; auto. lia.
  - apply div_tiny_le_one; auto. lia.
Qed.

Lemma valid_normal s (M : positive) E :
  Z.log2 (Zpos M) = 52 -> -1074 <= E <= 971 ->
  SpecFloat.valid_binary prec emax (S754_finite s M E) = true.
Proof.
  intros HM HE. unfold SpecFloat.valid_binary, SpecFloat.bounded, SpecFloat.canonical_mantissa.
  rewrite digits2_pos_log2, HM. unfold SpecFloat.fexp, SpecFloat.emin, prec, emax.
  replace (Z.max (52 + 1 + E - 53) (3 - 1024 - 53)) with E by lia.
  rewrite Z.eqb_refl. simpl. apply Z.leb_le. lia.
Qed.

(** Rounding an integer of at least [2^53] gives +inf or a normal float of
    exponent at least 1. *)
Lemma binary_normalize_large z :
  2 ^ 53 <= z ->
  SpecFloat.binary_normalize prec emax z 0 false = S754_infinity false \/
  exists M E, SpecFloat.binary_normalize prec emax z 0 false = S754_finite false M E /\
    Z.log2 (Zpos M) = 52 /\ 1 <= E <= 971.
Proof.
  intros Hz. destruct z as [|p|p]; try lia.
  assert (Hl : 53 <= Z.log2 (Zpos p)) by (rewrite <- (Z.log2_pow2 53) by lia; apply Z.log2_le_mono; lia).
  unfold SpecFloat.binary_normalize, SpecFloat.binary_round.
  rewrite digits2_pos_log2. unfold SpecFloat.shl_align.
  replace (SpecFloat.fexp prec emax (Z.log2 (Zpos p) + 1 + 0) - 0)
    with (Zpos (Z.to_pos (Z.log2 (Zpos p) - 52)))
    by (unfold SpecFloat.fexp, SpecFloat.emin, prec, emax; rewrite Z2Pos.id; lia).
  cbv beta iota zeta.
  destruct (round_aux_gen (Zpos p) 0 SpecFloat.loc_Exact) as [m1 [Hc [_ [Hb Hr]]]]; [lia|lia|].
  rewrite Hr.
  pose proof (shift_of_bounds (Zpos p) ltac:(lia)) as [Hs0 [Hm' Hm52]].
  assert (Hs : shift_of (Zpos p) = Z.log2 (Zpos p) - 52) by (unfold shift_of; lia).
  specialize (Hm52 ltac:(lia)).
  unfold emax, prec.
  destruct (Z.eqb_spec m1 (2 ^ 53)) as [Heq|Hne].
  - destruct (Z.leb_spec (0 + shift_of (Zpos p) + 1) (1024 - 53)); [right|left; reflexivity].
    exists 4503599627370496%positive, (0 + shift_of (Zpos p) + 1).
    split; [reflexivity|]. split; [reflexivity|lia].
  - destruct (Z.leb_spec (0 + shift_of (Zpos p)) (1024 - 53)); [right|left; reflexivity].
    exists (Z.to_pos m1), (0 + shift_of (Zpos p)).
    split; [reflexivity|]. split; [|lia].
    rewrite Z2Pos.id by lia. apply Z.log2_unique; [lia|]. rewrite Z.pow_succ_r by lia. lia.
Qed.

Lemma Prim2SF_float_of_nat_gen n :
  Prim2SF (float_of_nat n) = SpecFloat.binary_normalize prec emax (Z.of_nat n) 0 false.
Proof.
  destruct (Z.lt_ge_cases (Z.of_nat n) (2 ^ 63)) as [H|H].
  - rewrite float_of_nat_small, of_uint63_spec, Uint63.of_Z_spec by exact H.
    rewrite Z.mod_small by (unfold Uint63.wB, Uint63.size; simpl; lia). reflexivity.
  - unfold float_of_nat. cbv zeta.
    replace (Z.log2 (Z.of_nat n) <? 63) with false
      by (symmetry; apply Z.ltb_ge; rewrite <- (Z.log2_pow2 63) by lia; apply Z.log2_le_mono; lia).
    apply Prim2SF_SF2Prim.
    destruct (binary_normalize_large (Z.of_nat n)) as [E|[M [E' [E [HM HE]]]]];
      [lia|rewrite E; reflexivity|rewrite E; apply valid_normal; [exact HM|lia]].
Qed.

(** The float of an integer of at least [2^53] is +inf or a normal float of
    exponent at least 1, hence at least [2^53]. *)
Lemma Prim2SF_float_of_nat_large n :
  2 ^ 53 <= Z.of_nat n ->
  Prim2SF (float_of_nat n) = S754_infinity false \/
  exists M E, Prim2SF (float_of_nat n) = S754_finite false M E /\
    Z.log2 (Zpos M) = 52 /\ 1 <= E <= 971.
Proof. intros H. rewrite Prim2SF_float_of_nat_gen. apply binary_normalize_large. exact H. Qed.

End FloatInt.

(** ** The counting loops of [get_p_value_series] *)

Lemma nth_list_set {A} (l : list A) i v j d :
  i < length l -> nth j (list_set l i v) d = if Nat.eqb j i then v else nth j l d.
Proof.
  revert i j. induction l as [|x r IH]; intros [|i] [|j] H; simpl in *; try lia; auto.
  apply IH. lia.
Qed.

Lemma count_step_eq ms msp p x :
  x < length ms -> x < length msp -> x < length p ->
  count_step ms msp p x =
    Ret (if exceeds ms msp x then list_set p x (nth x p 0 + 1)%float else p).
Proof.
  intros H1 H2 H3. unfold count_step, exceeds.
  destruct (py_index_lt ms x H1) as [m [Hm Hmn]]. rewrite Hm. simpl.
  rewrite (nth_error_nth ms x 0%float Hmn).
  destruct (py_index_lt p x H3) as [v [Hv Hvn]].
  destruct (is_nan m); simpl.
  - unfold incr. rewrite Hv. simpl. now rewrite (nth_error_nth p x 0%float Hvn).
  - destruct (py_index_lt msp x H2) as [mp [Hmp Hmpn]]. rewrite Hmp. simpl.
    rewrite (nth_error_nth msp x 0%float Hmpn).
    destruct (m <? mp)%float; [|reflexivity].
    unfold incr. rewrite Hv. simpl. now rewrite (nth_error_nth p x 0%float Hvn).
Qed.

(** One permutation: the inner loop adds [1.0] at every index where the
    permuted mean shift exceeds. *)
Lemma inner_loop ms msp p k :
  length msp = length ms -> length p = length ms -> k <= length ms ->
  exists p',
    py_fold (count_step ms msp) (seq 0 k) p = Ret p' /\ length p' = length ms /\
    forall j, j < length ms ->
      nth j p' 0%float = if (j <? k) && exceeds ms msp j then (nth j p 0 + 1)%float
                         else nth j p 0%float.
Proof.
  intros H1 H2. induction k as [|k IH]; intros Hk.
  - exists p. split; [reflexivity|]. split; [exact H2|]. intros j _. reflexivity.
  - destruct IH as [p' [Hp' [Hl Hn]]]; [lia|].
    rewrite seq_S, py_fold_app, Hp'. simpl.
    rewrite count_step_eq by lia. simpl.
    eexists; split; [reflexivity|]. split.
    + destruct (exceeds ms msp k); [rewrite length_list_set|]; exact Hl.
    + intros j Hj. specialize (Hn j Hj).
      destruct (Nat.eq_dec j k) as [->|Hjk].
      * assert (Hkk : (k <? k) = false) by (apply Nat.ltb_ge; lia).
        assert (HkS : (k <? S k) = true) by (apply Nat.ltb_lt; lia).
        rewrite Hkk in Hn. simpl in Hn. rewrite HkS. simpl.
        destruct (exceeds ms msp k).
        -- rewrite nth_list_set, Nat.eqb_refl by lia. now rewrite Hn.
        -- exact Hn.
      * assert (Hjj : (j <? S k) = (j <? k)).
        { destruct (Nat.ltb_spec j (S k)), (Nat.ltb_spec j k); auto; lia. }
        rewrite Hjj, <- Hn.
        destruct (exceeds ms msp k); [|reflexivity].
        rewrite nth_list_set by lia.
        destruct (Nat.eqb_spec j k); [lia|reflexivity].
Qed.

Lemma exceed_count_S ms msp k j :
  exceed_count ms msp (S k) j =
    exceed_count ms msp k j + (if exceeds ms (msp k) j then 1 else 0).
Proof.
  unfold exceed_count. rewrite seq_S, filter_app, length_app. simpl.
  destruct (exceeds ms (msp k) j); reflexivity.
Qed.

Lemma exceed_count_le ms msp k j : exceed_count ms msp k j <= k.
Proof.
  unfold exceed_count. rewrite <- (length_seq k 0) at 2. apply filter_length_le.
Qed.

(** The outer loop: after [k < 2^53] permutations, the accumulator holds at
    each index the float of the number of exceeding draws. *)
Lemma outer_loop np_sum zs cmp permutation k :
  (forall i, i < k -> length (permutation i zs) = length zs) ->
  (Z.of_nat k < 2 ^ 53)%Z ->
  exists q,
    py_fold (fun p i =>
               py_fold (count_step (get_mean_shift_series np_sum zs cmp)
                          (get_mean_shift_series np_sum (permutation i zs) cmp))
                       (seq 0 (length (get_mean_shift_series np_sum (permutation i zs) cmp))) p)
            (seq 0 k) (repeat 0%float (length (get_mean_shift_series np_sum zs cmp))) = Ret q /\
    length q = length (get_mean_shift_series np_sum zs cmp) /\
    forall j, j < length (get_mean_shift_series np_sum zs cmp) ->
      nth j q 0%float =
        float_of_nat (exceed_count (get_mean_shift_series np_sum zs cmp)
                        (fun i => get_mean_shift_series np_sum (permutation i zs) cmp) k j).
Proof.
  set (ms := get_mean_shift_series np_sum zs cmp).
  set (msp := fun i => get_mean_shift_series np_sum (permutation i zs) cmp).
  intros Hperm. induction k as [|k IH]; intros Hk.
  - exists (repeat 0%float (length ms)). split; [reflexivity|].
    split; [apply repeat_length|]. intros j Hj. rewrite nth_repeat. reflexivity.
  - destruct IH as [q [Hq [Hl Hn]]]; [intros i Hi; apply Hperm; lia|lia|].
    rewrite seq_S, py_fold_app, Hq. simpl.
    assert (Hlk : length (msp k) = length ms).
    { unfold msp, ms. rewrite !get_mean_shift_series_length, Hperm by lia. reflexivity. }
    destruct (inner_loop ms (msp k) q (length (msp k))) as [q' [Hq' [Hl' Hn']]]; [lia|lia|lia|].
    change (get_mean_shift_series np_sum (permutation k zs) cmp) with (msp k).
    rewrite Hq'. exists q'. split; [reflexivity|]. split; [exact Hl'|].
    intros j Hj. rewrite Hn' by exact Hj. rewrite exceed_count_S.
    assert (Hjl : (j <? length (msp k)) = true) by (apply Nat.ltb_lt; lia).
    rewrite Hjl, Hn by exact Hj. simpl.
    pose proof (exceed_count_le ms msp k j).
    destruct (exceeds ms (msp k) j).
    + rewrite float_of_nat_succ by lia. f_equal. lia.
    + f_equal. lia.
Qed.

(** When every draw exceeds at [j], the count is the number of draws. *)
Lemma exceed_count_all ms msp n j :
  (forall i, i < n -> exceeds ms (msp i) j = true) -> exceed_count ms msp n j = n.
Proof.
  induction n as [|n IH]; intros H; [reflexivity|].
  rewrite exceed_count_S, IH, H; [lia|lia|intros i Hi; apply H; lia].
Qed.

(** A loop whose step maps [[w]] to [[w + 1]] iterates the increment. *)
Lemma py_fold_singleton_incr {A} (f : list float -> A -> py (list float)) l v :
  (forall w x, f [w] x = Ret [(w + 1)%float]) ->
  py_fold f l [v] = Ret [Nat.iter (length l) (fun w => (w + 1)%float) v].
Proof.
  intros Hf. revert v. induction l as [|x l IH]; intros v; [reflexivity|].
  simpl py_fold. rewrite Hf. cbn [py_bind]. rewrite IH.
  rewrite (Nat.iter_succ_r (length l)). reflexivity.
Qed.

(** Below [2^53], repeated float increments from 0 count exactly. *)
Lemma iter_incr_float k :
  (Z.of_nat k < 2 ^ 53)%Z -> Nat.iter k (fun w => (w + 1)%float) 0%float = float_of_nat k.
Proof.
  induction k as [|k IH]; intros Hk; [reflexivity|].
  rewrite Nat.iter_succ, IH by lia. apply float_of_nat_succ. lia.
Qed.

(** The p-value series, entry by entry, for [1 <= N < 2^53] draws. *)
Lemma p_value_series_spec np_sum word zs n cmp permutation :
  (1 <= n)%nat -> (Z.of_nat n < 2 ^ 53)%Z ->
  (forall i, i < n -> length (permutation i zs) = length zs) ->
  let ms := get_mean_shift_series np_sum zs cmp in
  let msp := fun i => get_mean_shift_series np_sum (permutation i zs) cmp in
  exists p, get_p_value_series np_sum word ms n zs cmp permutation = Ret p /\
    length p = length ms /\
    forall j, j < length ms ->
      nth j p 0%float = (float_of_nat (exceed_count ms msp n j) / float_of_nat n)%float /\
      (is_nan (nth j ms 0%float) = true -> nth j p 0%float = 1%float).
Proof.
  intros H1 H2 Hperm. cbv zeta.
  destruct (outer_loop np_sum zs cmp permutation n Hperm H2) as [q [Hq [Hl Hn]]].
  exists (map (fun v => (v / float_of_nat n)%float) q).
  split; [unfold get_p_value_series; cbv zeta; rewrite Hq; reflexivity|].
  split; [rewrite length_map; exact Hl|].
  intros j Hj.
  assert (Hm : nth j (map (fun v => (v / float_of_nat n)%float) q) 0%float =
                (nth j q 0%float / float_of_nat n)%float).
  { rewrite (nth_indep _ 0%float ((fun v => (v / float_of_nat n)%float) 0%float))
      by (rewrite length_map; lia).
    apply (map_nth (fun v => (v / float_of_nat n)%float)). }
  rewrite Hm, Hn by exact Hj. split; [reflexivity|].
  intros Hnan. rewrite exceed_count_all; [apply float_of_nat_div_self; assumption|].
  intros i _. unfold exceeds. rewrite Hnan. reflexivity.
Qed.

(** The outer loop for any number of permutations: the accumulator holds at
    each index the float count reached by repeated [+ 1.0] increments. *)
Lemma outer_loop_gen np_sum zs cmp permutation k :
  (forall i, i < k -> length (permutation i zs) = length zs) ->
  exists q,
    py_fold (fun p i =>
               py_fold (count_step (get_mean_shift_series np_sum zs cmp)
                          (get_mean_shift_series np_sum (permutation i zs) cmp))
                       (seq 0 (length (get_mean_shift_series np_sum (permutation i zs) cmp))) p)
            (seq 0 k) (repeat 0%float (length (get_mean_shift_series np_sum zs cmp))) = Ret q /\
    length q = length (get_mean_shift_series np_sum zs cmp) /\
    forall j, j < length (get_mean_shift_series np_sum zs cmp) ->
      nth j q 0%float =
        Nat.iter (exceed_count (get_mean_shift_series np_sum zs cmp)
                    (fun i => get_mean_shift_series np_sum (permutation i zs) cmp) k j)
                 (fun w => (w + 1)%float) 0%float.
Proof.
  set (ms := get_mean_shift_series np_sum zs cmp).
  set (msp := fun i => get_mean_shift_series np_sum (permutation i zs) cmp).
  intros Hperm. induction k as [|k IH].
  - exists (repeat 0%float (length ms)). split; [reflexivity|].
    split; [apply repeat_length|]. intros j Hj. rewrite nth_repeat. reflexivity.
  - destruct IH as [q [Hq [Hl Hn]]]; [intros i Hi; apply Hperm; lia|].
    rewrite seq_S, py_fold_app, Hq. simpl.
    assert (Hlk : length (msp k) = length ms).
    { unfold msp, ms. rewrite !get_mean_shift_series_length, Hperm by lia. reflexivity. }
    destruct (inner_loop ms (msp k) q (length (msp k))) as [q' [Hq' [Hl' Hn']]]; [lia|lia|lia|].
    change (get_mean_shift_series np_sum (permutation k zs) cmp) with (msp k).
    rewrite Hq'. exists q'. split; [reflexivity|]. split; [exact Hl'|].
    intros j Hj. rewrite Hn' by exact Hj. rewrite exceed_count_S.
    assert (Hjl : (j <? length (msp k)) = true) by (apply Nat.ltb_lt; lia).
    rewrite Hjl, Hn by exact Hj. simpl.
    destruct (exceeds ms (msp k) j).
    + rewrite Nat.add_1_r. reflexivity.
    + rewrite Nat.add_0_r. reflexivity.
Qed.

(** Repeated float increments from 0 count exactly up to [2^53] and then
    stay at [2^53], since [2^53 + 1] rounds back to [2^53]. *)
Lemma iter_incr_sat c :
  Nat.iter c (fun w => (w + 1)%float) 0%float =
    if (Z.of_nat c <? 2 ^ 53)%Z then float_of_nat c else 9007199254740992%float.
Proof.
  induction c as [|c IH]; [reflexivity|].
  rewrite Nat.iter_succ, IH.
  destruct (Z.ltb_spec (Z.of_nat (S c)) (2 ^ 53)) as [Hs|Hs].
  - rewrite (proj2 (Z.ltb_lt (Z.of_nat c) (2 ^ 53))) by lia. apply float_of_nat_succ. lia.
  - destruct (Z.ltb_spec (Z.of_nat c) (2 ^ 53)) as [Hc|Hc].
    + assert (Ec : c = Z.to_nat (2 ^ 53 - 1)) by lia. rewrite Ec.
      rewrite float_of_nat_small by (rewrite Z2Nat.id; lia).
      rewrite Z2Nat.id by lia. vm_compute. reflexivity.
    + vm_compute. reflexivity.
Qed.

(** The count reached by the increments is zero, or a normal float of
    exponent at most 1 (at most [2^53]). *)
Lemma count_float_shape c :
  Prim2SF (Nat.iter c (fun w => (w + 1)%float) 0%float) = S754_zero false \/
  exists M E, Prim2SF (Nat.iter c (fun w => (w + 1)%float) 0%float) = S754_finite false M E /\
    Z.log2 (Zpos M) = 52%Z /\ (-52 <= E <= 1)%Z /\ (E = 1%Z -> Zpos M = (2 ^ 52)%Z).
Proof.
  rewrite iter_incr_sat. destruct (Z.ltb_spec (Z.of_nat c) (2 ^ 53)) as [H|H].
  - destruct c as [|c']; [left; reflexivity|]. right.
    rewrite Prim2SF_float_of_nat by lia. unfold int_sf.
    pose proof (int_mantissa_bounds (Z.of_nat (S c')) ltac:(lia)) as [Hl [HM HlM]].
    eexists _, _. split; [reflexivity|].
    split; [rewrite Z2Pos.id by lia; exact HlM|]. split; [lia|]. intros; lia.
  - right. exists 4503599627370496%positive, 1%Z. split; [reflexivity|].
    split; [reflexivity|]. split; [lia|]. reflexivity.
Qed.

(** A count of at most [N] increments, divided by the float of [N >= 1], is
    at most one (and not NaN), for every [N]. *)
Lemma count_div_le_one c n :
  (c <= n)%nat -> (1 <= n)%nat ->
  (Nat.iter c (fun w => (w + 1)%float) 0%float / float_of_nat n <=? 1)%float = true.
Proof.
  intros Hc Hn. destruct (Z.lt_ge_cases (Z.of_nat n) (2 ^ 53)) as [Hs|Hs].
  - rewrite iter_incr_float by lia. apply float_of_nat_div_le_one; lia.
  - rewrite leb_spec, div_spec, Prim2SF_one.
    destruct (Prim2SF_float_of_nat_large n Hs) as [Hy|[M2 [E2 [Hy [HM2 HE2]]]]]; rewrite Hy;
    (destruct (count_float_shape c) as [Hx|[M1 [E1 [Hx [HM1 [HE1 HE1']]]]]]; rewrite Hx;
      [reflexivity| ]).
    + reflexivity.
    + apply div_le_one_gen; [exact HM1|exact HM2|lia|].
      pose proof (Z.log2_spec (Zpos M1) ltac:(lia)) as [L1 U1].
      pose proof (Z.log2_spec (Zpos M2) ltac:(lia)) as [L2 U2].
      rewrite HM1 in L1, U1. rewrite HM2 in L2, U2.
      rewrite Z.pow_succ_r in U1, U2 by lia.
      destruct (Z.eq_dec E1 E2) as [<-|Hne].
      * replace (53 + E1 - E1)%Z with 53%Z by lia.
        specialize (HE1' ltac:(lia)). nia.
      * assert (Hp : (2 ^ 54 <= 2 ^ (53 + E2 - E1))%Z) by (apply Z.pow_le_mono_r; lia).
        nia.
Qed.

(** The p-value series for any number [N] of draws: each entry is the float
    count of exceeding draws divided by the float of [N]. *)
Lemma p_value_series_gen np_sum word zs n cmp permutation :
  (forall i, i < n -> length (permutation i zs) = length zs) ->
  let ms := get_mean_shift_series np_sum zs cmp in
  let msp := fun i => get_mean_shift_series np_sum (permutation i zs) cmp in
  exists p, get_p_value_series np_sum word ms n zs cmp permutation = Ret p /\
    length p = length ms /\
    forall j, j < length ms ->
      nth j p 0%float =
        (Nat.iter (exceed_count ms msp n j) (fun w => (w + 1)%float) 0%float / float_of_nat n)%float.
Proof.
  intros Hperm. cbv zeta.
  destruct (outer_loop_gen np_sum zs cmp permutation n Hperm) as [q [Hq [Hl Hn]]].
  exists (map (fun v => (v / float_of_nat n)%float) q).
  split; [unfold get_p_value_series; cbv zeta; rewrite Hq; reflexivity|].
  split; [rewrite length_map; exact Hl|].
  intros j Hj.
  rewrite (nth_indep _ 0%float ((fun v => (v / float_of_nat n)%float) 0%float))
    by (rewrite length_map; lia).
  rewrite (map_nth (fun v => (v / float_of_nat n)%float)). rewrite Hn by exact Hj. reflexivity.
Qed.

(** Claim C1 (amended): for [1 <= N < 2^53] draws, each entry of the p-value
    series is the float of the number of draws [i] that exceed at [j] (the
    original mean shift at [j] is NaN, or is strictly below the mean shift of
    the [i]-th permuted series at [j]), divided by the float of [N]; and where
    the original mean shift is NaN every draw exceeds, so the p-value is 1. *)
Theorem p_value_series_fraction np_sum word zs n cmp permutation :
  (1 <= n)%nat -> (Z.of_nat n < 2 ^ 53)%Z ->
  (forall i, i < n -> length (permutation i zs) = length zs) ->
  let ms := get_mean_shift_series np_sum zs cmp in
  let msp := fun i => get_mean_shift_series np_sum (permutation i zs) cmp in
  exists p, get_p_value_series np_sum word ms n zs cmp permutation = Ret p /\
    length p = length ms /\
    forall j, j < length ms ->
      nth j p 0%float = (float_of_nat (exceed_count ms msp n j) / float_of_nat n)%float /\
      (is_nan (nth j ms 0%float) = true -> nth j p 0%float = 1%float).
Proof.
  exact (p_value_series_spec np_sum word zs n cmp permutation).
Qed.

Lemma p_value_series_fraction_witness :
  (1 <= 2)%nat /\ (Z.of_nat 2 < 2 ^ 53)%Z /\
  (forall i, i < 2 -> length (identity_permutation i [1; 2; 4]%float) = length [1; 2; 4]%float) /\
  let ms := get_mean_shift_series np_sum_seq [1; 2; 4]%float "last"%string in
  let msp := fun i => get_mean_shift_series np_sum_seq (identity_permutation i [1; 2; 4]%float) "last"%string in
  exists p, get_p_value_series np_sum_seq "cat"%string ms 2 [1; 2; 4]%float "last"%string identity_permutation = Ret p /\
    length p = length ms /\
    forall j, j < length ms ->
      nth j p 0%float = (float_of_nat (exceed_count ms msp 2 j) / float_of_nat 2)%float /\
      (is_nan (nth j ms 0%float) = true -> nth j p 0%float = 1%float).
Proof.
  split; [lia|]. split; [reflexivity|]. split; [intros; reflexivity|].
  apply (p_value_series_fraction np_sum_seq "cat"%string [1; 2; 4]%float 2 "last"%string
           identity_permutation); [lia|reflexivity|intros; reflexivity].
Defined.

(** Claim C1 fails beyond [2^53] draws: with [zs = [1; 2]], [compare_to = "last"],
    every draw the permutation [[2; 1]] and [N = 2^53 + 2], all [N] draws exceed
    at index 0, so the fraction is 1, but the float counter stops at [2^53]
    ([2^53 + 1] rounds to [2^53]) and the p-value is [2^53 / (2^53 + 2)], not 1. *)
Lemma p_value_counter_saturates :
  let ms := get_mean_shift_series np_sum_seq [1; 2]%float "last"%string in
  let msp := fun (_ : nat) => get_mean_shift_series np_sum_seq [2; 1]%float "last"%string in
  (forall i, exceeds ms (msp i) 0 = true) /\
  get_p_value_series np_sum_seq "cat"%string ms (Z.to_nat 9007199254740994) [1; 2]%float
    "last"%string (fun _ _ => [2; 1]%float) =
    Ret [(9007199254740992 / 9007199254740994)%float] /\
  ((9007199254740992 / 9007199254740994) =? 1)%float = false.
Proof.
  intros ms msp. split; [intros i; vm_compute; reflexivity|].
  split; [|vm_compute; reflexivity].
  unfold get_p_value_series. cbv zeta.
  change (repeat 0%float (length ms)) with [0%float].
  rewrite py_fold_singleton_incr by (intros w x; reflexivity).
  rewrite length_seq. cbn [py_bind map].
  assert (HN : Z.to_nat 9007199254740994 = (3 + Z.to_nat 9007199254740991)%nat).
  { change 3%nat with (Z.to_nat 3). rewrite <- Z2Nat.inj_add by lia. reflexivity. }
  rewrite HN, Nat.iter_add.
  rewrite (iter_incr_float (Z.to_nat 9007199254740991)) by (rewrite Z2Nat.id by lia; reflexivity).
  unfold float_of_nat. rewrite Nat2Z.inj_add, Z2Nat.id by lia.
  vm_compute. reflexivity.
Qed.

(** The gate, entry by entry, in [nth] form. *)
Lemma gate_nth p zs gamma :
  length p <= length zs ->
  exists q, gate p zs gamma = Ret q /\ length q = length p /\
    forall j, j < length p ->
      nth j q 0%float = (if (nth j zs 0 <? gamma)%float then 1%float else nth j p 0%float).
Proof.
  intros Hz. destruct (gate_prefix p zs gamma (length p)) as [q [Hq [Hl Hn]]]; [lia|lia|].
  exists q. split; [exact Hq|]. split; [exact Hl|].
  intros j Hj. assert (Hjz : j < length zs) by lia.
  pose proof (Hn j (nth j p 0%float) (nth j zs 0%float)
                 (nth_error_nth' p 0%float Hj) (nth_error_nth' zs 0%float Hjz)) as H.
  rewrite (proj2 (Nat.ltb_lt j (length p)) Hj) in H.
  exact (nth_error_nth q j 0%float H).
Qed.

(** Claim C9 fails for [N = 0]: the p-value series of [zs = [1; 2]] with
    [compare_to = "last"] is [[NaN]]; with gamma 0 the gate leaves it [[NaN]],
    with gamma 5 it gives [[1]], and [NaN <= 1] is false. *)
Lemma gate_not_monotone_zero_samples :
  get_p_value_series np_sum_seq "cat"%string (get_mean_shift_series np_sum_seq [1; 2]%float "last"%string)
    0 [1; 2]%float "last"%string identity_permutation = Ret [(0 / 0)%float] /\
  gate [(0 / 0)%float] [1; 2]%float 0 = Ret [(0 / 0)%float] /\
  gate [(0 / 0)%float] [1; 2]%float 5 = Ret [1%float] /\
  (0 <=? 5)%float = true /\
  ((0 / 0) <=? 1)%float = false.
Proof.
  split; [vm_compute; reflexivity|].
  split; [vm_compute; reflexivity|].
  split; [vm_compute; reflexivity|].
  split; vm_compute; reflexivity.
Qed.

(** Claim C9 (amended): for [N >= 1] draws and [gamma1 <= gamma2], at every
    split index the gated p-value under [gamma2] is at least the gated
    p-value under [gamma1], which is at least the ungated p-value.  Every
    ungated p-value is at most 1 (the float count, which stops at [2^53],
    never exceeds the float of [N]), so setting it to 1 never lowers it. *)
Theorem gate_monotone_in_gamma np_sum word zs n cmp permutation gamma1 gamma2 :
  (1 <= n)%nat ->
  (forall i, i < n -> length (permutation i zs) = length zs) ->
  (gamma1 <=? gamma2)%float = true ->
  exists p q1 q2,
    get_p_value_series np_sum word (get_mean_shift_series np_sum zs cmp) n zs cmp permutation = Ret p /\
    gate p zs gamma1 = Ret q1 /\ gate p zs gamma2 = Ret q2 /\
    length q1 = length p /\ length q2 = length p /\
    forall j, j < length p ->
      (nth j p 0 <=? nth j q1 0)%float = true /\ (nth j q1 0 <=? nth j q2 0)%float = true.
Proof.
  intros H1 Hperm Hg.
  destruct (p_value_series_gen np_sum word zs n cmp permutation Hperm)
    as [p [Hp [Hl Hn]]].
  rewrite get_mean_shift_series_length in Hl.
  destruct (gate_nth p zs gamma1) as [q1 [Hq1 [Hl1 Hn1]]]; [lia|].
  destruct (gate_nth p zs gamma2) as [q2 [Hq2 [Hl2 Hn2]]]; [lia|].
  exists p, q1, q2. do 5 (split; [assumption|]).
  intros j Hj. rewrite Hn1, Hn2 by exact Hj.
  assert (Hle : (nth j p 0 <=? 1)%float = true).
  { rewrite Hn by (rewrite get_mean_shift_series_length; lia).
    apply count_div_le_one; [apply exceed_count_le|exact H1]. }
  destruct (leb_not_nan _ _ Hle) as [Hnan _].
  destruct (nth j zs 0 <? gamma1)%float eqn:E1.
  - rewrite (ltb_leb_trans _ _ _ E1 Hg). split; [exact Hle|apply leb_refl; reflexivity].
  - split; [apply leb_refl; exact Hnan|].
    destruct (nth j zs 0 <? gamma2)%float; [exact Hle|apply leb_refl; exact Hnan].
Qed.

Lemma gate_monotone_in_gamma_witness :
  (1 <= 2)%nat /\
  (forall i, i < 2 -> length (identity_permutation i [1; 2; 4]%float) = length [1; 2; 4]%float) /\
  (0 <=? 1.5)%float = true /\
  exists p q1 q2,
    get_p_value_series np_sum_seq "cat"%string (get_mean_shift_series np_sum_seq [1; 2; 4]%float "last"%string)
      2 [1; 2; 4]%float "last"%string identity_permutation = Ret p /\
    gate p [1; 2; 4]%float 0 = Ret q1 /\ gate p [1; 2; 4]%float 1.5 = Ret q2 /\
    length q1 = length p /\ length q2 = length p /\
    forall j, j < length p ->
      (nth j p 0 <=? nth j q1 0)%float = true /\ (nth j q1 0 <=? nth j q2 0)%float = true.
Proof.
  split; [lia|]. split; [intros; reflexivity|].
  split; [vm_compute; reflexivity|].
  apply (gate_monotone_in_gamma np_sum_seq "cat"%string [1; 2; 4]%float 2 "last"%string
           identity_permutation 0 1.5); [lia|intros; reflexivity|vm_compute; reflexivity].
Defined.

(** * Further properties of the code *)

(** ** NaN propagation *)

Lemma is_nan_Prim2SF x : is_nan x = true <-> Prim2SF x = S754_nan.
Proof.
  split; [apply Prim2SF_nan|]. intros H. unfold is_nan. rewrite eqb_spec, H. reflexivity.
Qed.

Lemma nan_add_l x y : is_nan x = true -> is_nan (x + y)%float = true.
Proof.
  rewrite !is_nan_Prim2SF. intros H. rewrite add_spec, H. reflexivity.
Qed.

Lemma nan_add_r x y : is_nan y = true -> is_nan (x + y)%float = true.
Proof.
  rewrite !is_nan_Prim2SF. intros H. rewrite add_spec, H.
  unfold SF64add. destruct (Prim2SF x); reflexivity.
Qed.

Lemma nan_sub_l x y : is_nan x = true -> is_nan (x - y)%float = true.
Proof.
  rewrite !is_nan_Prim2SF. intros H. rewrite sub_spec, H. reflexivity.
Qed.

Lemma nan_sub_r x y : is_nan y = true -> is_nan (x - y)%float = true.
Proof.
  rewrite !is_nan_Prim2SF. intros H. rewrite sub_spec, H.
  unfold SF64sub. destruct (Prim2SF x); reflexivity.
Qed.

Lemma nan_div_l x y : is_nan x = true -> is_nan (x / y)%float = true.
Proof.
  rewrite !is_nan_Prim2SF. intros H. rewrite div_spec, H. reflexivity.
Qed.

Lemma nan_truthy x : is_nan x = true -> truthy x = true.
Proof.
  intros H. apply is_nan_Prim2SF in H. unfold truthy. rewrite eqb_spec, H. reflexivity.
Qed.

(** [np_sum_seq] returns NaN as soon as one term is NaN. *)
Lemma np_sum_seq_nan l : Exists (fun x => is_nan x = true) l -> is_nan (np_sum_seq l) = true.
Proof.
  unfold np_sum_seq.
  assert (Hacc : forall l a, is_nan a = true -> is_nan (fold_left (fun a x => (a + x)%float) l a) = true).
  { induction l0 as [|x r IH]; intros a Ha; [exact Ha|]. simpl. apply IH, nan_add_l, Ha. }
  generalize 0%float. induction l as [|x r IH]; intros a H; [inversion H|].
  simpl. inversion H; subst.
  - apply Hacc, nan_add_r. assumption.
  - apply IH. assumption.
Qed.

Lemma compact_In x zs : In (Some x) zs -> truthy x = true -> In x (compact zs).
Proof.
  induction zs as [|[y|] r IH]; simpl; intros Hin Ht; [contradiction| |].
  - destruct Hin as [Heq|Hin].
    + inversion Heq; subst. rewrite Ht. now left.
    + destruct (truthy y); [right|]; auto.
  - destruct Hin as [Heq|Hin]; [discriminate|auto].
Qed.

(** [get_z_score_dict] standardises each truthy distance and maps every other
    entry to [None]; the keys are kept in order. *)
Lemma get_z_score_dict_entry np_sum dist_dict i :
  nth_error (get_z_score_dict np_sum dist_dict) i =
  option_map (fun '(word, d) =>
                (word, match d with
                       | Some x =>
                           if truthy x then
                             Some ((x - np_mean np_sum (compact (map snd dist_dict)))
                                   / sqrt (np_var np_sum (compact (map snd dist_dict))))%float
                           else None
                       | None => None
                       end))
             (nth_error dist_dict i).
Proof. unfold get_z_score_dict. rewrite nth_error_map. reflexivity. Qed.

(** X: one NaN distance makes every z-score of the timestep NaN, for any
    summation that returns NaN on an array holding a NaN (as [np.sum] does):
    NaN is truthy, so it enters the mean. *)
Theorem z_score_dict_nan_distance np_sum dist_dict :
  (forall l, Exists (fun x => is_nan x = true) l -> is_nan (np_sum l) = true) ->
  (exists w x, In (w, Some x) dist_dict /\ is_nan x = true) ->
  forall w z, In (w, Some z) (get_z_score_dict np_sum dist_dict) -> is_nan z = true.
Proof.
  intros Hsum [w0 [x0 [Hin0 Hnan0]]] w z Hin.
  set (l := compact (map snd dist_dict)).
  assert (Hl : In x0 l).
  { apply compact_In; [|apply nan_truthy, Hnan0].
    change (Some x0) with (snd (w0, Some x0)). now apply in_map. }
  assert (Hmean : is_nan (np_mean np_sum l) = true).
  { clearbody l. unfold np_mean. destruct l as [|y r]; [reflexivity|].
    apply nan_div_l, Hsum, Exists_exists. exists x0. split; assumption. }
  unfold get_z_score_dict in Hin. fold l in Hin. apply in_map_iff in Hin.
  destruct Hin as [[w' [x|]] [Heq _]]; [|discriminate].
  destruct (truthy x); inversion Heq; subst.
  apply nan_div_l, nan_sub_r, Hmean.
Qed.

Lemma z_score_dict_nan_distance_witness :
  (forall l, Exists (fun x => is_nan x = true) l -> is_nan (np_sum_seq l) = true) /\
  (exists w x, In (w, Some x) [("a", Some nan); ("b", Some 1%float)]%string /\ is_nan x = true) /\
  forall w z, In (w, Some z) (get_z_score_dict np_sum_seq [("a", Some nan); ("b", Some 1%float)]%string) ->
    is_nan z = true.
Proof.
  split; [exact np_sum_seq_nan|].
  assert (Hex : exists w x, In (w, Some x) [("a", Some nan); ("b", Some 1%float)]%string /\
                            is_nan x = true).
  { exists "a"%string, nan. split; [now left|reflexivity]. }
  split; [exact Hex|].
  apply (z_score_dict_nan_distance np_sum_seq [("a", Some nan); ("b", Some 1%float)]%string
           np_sum_seq_nan Hex).
Defined.

(** ** Distances and z-scores of one timestep *)

(** X: the z-score dict built from [get_dist_dict] has one entry per
    vocabulary word, in the vocabulary's order; a word gets a z-score exactly
    when it is in both (aligned) models and its distance is truthy, so a
    distance of exactly 0.0 is treated like a missing word. *)
Theorem z_scores_of_dist_dict np_sum Model Vec load_model in_model vector cosine
  measure_semantic_shift_by_neighborhood smart_procrustes_align_gensim
  model_path alignment_reference_model_path comparison_reference_model_path vocab
  distance_measure k training_mode :
  let aligned := String.eqb distance_measure "cosine" && String.eqb training_mode "independent" in
  let model := if aligned then smart_procrustes_align_gensim
                                 (load_model alignment_reference_model_path) (load_model model_path)
               else load_model model_path in
  let comparison_reference_model :=
    if aligned then smart_procrustes_align_gensim
                      (load_model alignment_reference_model_path)
                      (load_model comparison_reference_model_path)
    else load_model comparison_reference_model_path in
  let distance word :=
    if String.eqb distance_measure "cosine" then
      cosine (vector comparison_reference_model word) (vector model word)
    else measure_semantic_shift_by_neighborhood comparison_reference_model model word k in
  let z_score_dict :=
    get_z_score_dict np_sum
      (get_dist_dict Model Vec load_model in_model vector cosine
         measure_semantic_shift_by_neighborhood smart_procrustes_align_gensim
         model_path alignment_reference_model_path comparison_reference_model_path
         vocab distance_measure k training_mode) in
  map fst z_score_dict = vocab /\
  forall i word z, nth_error z_score_dict i = Some (word, z) ->
    (z = None <->
     in_model word comparison_reference_model && in_model word model = false \/
     truthy (distance word) = false).
Proof.
  cbv zeta. split.
  - unfold get_z_score_dict, get_dist_dict. rewrite map_map, map_map.
    erewrite map_ext; [apply map_id|]. intros a. cbv beta. destruct (_ && _); reflexivity.
  - intros i word z H. rewrite get_z_score_dict_entry in H.
    unfold get_dist_dict at 3 in H. rewrite nth_error_map in H.
    destruct (nth_error vocab i) as [w|]; [|discriminate].
    cbn [option_map] in H. inversion H; subst; clear H.
    destruct (_ && _); [|split; [intros _; left; reflexivity|intros _; reflexivity]].
    destruct (String.eqb distance_measure "cosine");
      match goal with |- context [truthy ?d] => destruct (truthy d) end;
      intuition congruence.
Qed.

(** ** Range of the p-values *)

Section FloatNonneg.
Local Open Scope Z_scope.

Lemma div_nonneg_53 (M1 M2 : positive) E1 E2 :
  Z.log2 (Zpos M1) = 52 -> Z.log2 (Zpos M2) = 52 -> (-800 <= E1 - E2 <= 800)%Z ->
  SpecFloat.SFleb (S754_zero false)
    (SF64div (S754_finite false M1 E1) (S754_finite false M2 E2)) = true.
Proof.
  intros H1 H2 HE. unfold SF64div, SpecFloat.SFdiv.
  rewrite div_core_53 by lia. cbv beta iota zeta. simpl xorb.
  pose proof (Z.log2_spec (Zpos M1) ltac:(lia)) as [L1 U1].
  pose proof (Z.log2_spec (Zpos M2) ltac:(lia)) as [L2 U2].
  rewrite H1 in L1, U1. rewrite H2 in L2, U2.
  set (q := (Zpos M1 * 2 ^ 53 / Zpos M2)%Z).
  assert (Hq1 : (1 <= q)%Z) by (apply Z.div_le_lower_bound; lia).
  assert (Hq2 : (q < 2 ^ 110)%Z).
  { apply Z.div_lt_upper_bound; [lia|].
    change (2 ^ 110)%Z with (2 ^ 53 * 2 ^ 57)%Z. nia. }
  destruct (round_aux_spec q (E1 - E2 - 53) (SpecFloat.new_location (Zpos M2)
              (Zpos M1 * 2 ^ 53 mod Zpos M2))) as [m1 [_ [_ [_ ->]]]]; [lia|lia|].
  destruct (m1 =? 2 ^ 53)%Z; reflexivity.
Qed.

Lemma float_of_nat_div_nonneg c n :
  (1 <= n)%nat -> (Z.of_nat c < 2 ^ 53)%Z -> (Z.of_nat n < 2 ^ 53)%Z ->
  (0 <=? float_of_nat c / float_of_nat n)%float = true.
Proof.
  intros H1 Hc H2. rewrite leb_spec, div_spec.
  rewrite (Prim2SF_float_of_nat n) by lia.
  destruct c as [|c]; [reflexivity|].
  rewrite Prim2SF_float_of_nat by lia.
  pose proof (int_mantissa_bounds (Z.of_nat (S c)) ltac:(lia)) as [Hla [_ HlMa]].
  pose proof (int_mantissa_bounds (Z.of_nat n) ltac:(lia)) as [Hlb [_ HlMb]].
  unfold int_sf. apply div_nonneg_53; try (rewrite Z2Pos.id by lia); try lia.
Qed.

Lemma zero_div_float_of_nat n :
  (1 <= n)%nat -> (Z.of_nat n < 2 ^ 53)%Z -> (float_of_nat 0 / float_of_nat n)%float = 0%float.
Proof.
  intros H1 H2. apply Prim2SF_inj. rewrite div_spec, (Prim2SF_float_of_nat n) by lia.
  reflexivity.
Qed.

End FloatNonneg.

(** X: for [1 <= N < 2^53] draws (each of the length of the series), every
    p-value lies between 0 and 1. *)
Theorem p_values_in_unit_interval np_sum word zs n cmp permutation :
  (1 <= n)%nat -> (Z.of_nat n < 2 ^ 53)%Z ->
  (forall i, i < n -> length (permutation i zs) = length zs) ->
  exists p,
    get_p_value_series np_sum word (get_mean_shift_series np_sum zs cmp) n zs cmp permutation = Ret p /\
    length p = length zs - 1 /\
    Forall (fun v => (0 <=? v)%float = true /\ (v <=? 1)%float = true) p.
Proof.
  intros H1 H2 Hperm.
  destruct (p_value_series_spec np_sum word zs n cmp permutation H1 H2 Hperm)
    as [p [Hp [Hl Hn]]].
  exists p. split; [exact Hp|]. rewrite get_mean_shift_series_length in Hl.
  split; [exact Hl|].
  apply Forall_forall. intros v Hv. apply (In_nth p v 0%float) in Hv.
  destruct Hv as [j [Hj <-]].
  destruct (Hn j ltac:(rewrite get_mean_shift_series_length; lia)) as [-> _].
  pose proof (exceed_count_le (get_mean_shift_series np_sum zs cmp)
                (fun i => get_mean_shift_series np_sum (permutation i zs) cmp) n j).
  split.
  - apply float_of_nat_div_nonneg; lia.
  - apply float_of_nat_div_le_one; lia.
Qed.

Lemma p_values_in_unit_interval_witness :
  (1 <= 2)%nat /\ (Z.of_nat 2 < 2 ^ 53)%Z /\
  (forall i, i < 2 -> length (identity_permutation i [1; 2; 4]%float) = length [1; 2; 4]%float) /\
  exists p,
    get_p_value_series np_sum_seq "cat"%string (get_mean_shift_series np_sum_seq [1; 2; 4]%float "last"%string)
      2 [1; 2; 4]%float "last"%string identity_permutation = Ret p /\
    length p = length [1; 2; 4]%float - 1 /\
    Forall (fun v => (0 <=? v)%float = true /\ (v <=? 1)%float = true) p.
Proof.
  split; [lia|]. split; [reflexivity|]. split; [intros; reflexivity|].
  apply (p_values_in_unit_interval np_sum_seq "cat"%string [1; 2; 4]%float 2 "last"%string
           identity_permutation); [lia|reflexivity|intros; reflexivity].
Defined.

Lemma exceed_count_none ms msp n j :
  (forall i, i < n -> exceeds ms (msp i) j = false) -> exceed_count ms msp n j = 0.
Proof.
  induction n as [|n IH]; intros H; [reflexivity|].
  rewrite exceed_count_S, IH, H; [reflexivity|lia|intros i Hi; apply H; lia].
Qed.

(** X: the comparison is strict, so for [1 <= n < 2^53] draws that leave the
    series as it is (as every permutation of a constant series does) nothing
    counts but the NaN rule: the p-value is 0 wherever the mean shift is a
    number, and 1 where it is NaN. *)
Theorem p_value_unchanged_draws np_sum word zs n cmp permutation :
  (1 <= n)%nat -> (Z.of_nat n < 2 ^ 53)%Z ->
  (forall i, i < n -> permutation i zs = zs) ->
  exists p,
    get_p_value_series np_sum word (get_mean_shift_series np_sum zs cmp) n zs cmp permutation = Ret p /\
    length p = length zs - 1 /\
    forall j, j < length p ->
      nth j p 0%float =
        if is_nan (nth j (get_mean_shift_series np_sum zs cmp) 0%float) then 1%float else 0%float.
Proof.
  intros H1 H2 Hperm.
  destruct (p_value_series_spec np_sum word zs n cmp permutation H1 H2)
    as [p [Hp [Hl Hn]]]; [intros i Hi; rewrite Hperm by exact Hi; reflexivity|].
  exists p. split; [exact Hp|]. rewrite get_mean_shift_series_length in Hl.
  split; [exact Hl|].
  intros j Hj. destruct (Hn j ltac:(rewrite get_mean_shift_series_length; lia)) as [Hv Hnan].
  destruct (is_nan (nth j (get_mean_shift_series np_sum zs cmp) 0%float)) eqn:E;
    [apply Hnan; reflexivity|].
  rewrite Hv, exceed_count_none; [apply zero_div_float_of_nat; lia|].
  intros i Hi. unfold exceeds. rewrite E, Hperm by exact Hi. apply ltb_irrefl.
Qed.

Lemma p_value_unchanged_draws_witness :
  (1 <= 3)%nat /\ (Z.of_nat 3 < 2 ^ 53)%Z /\
  (forall i, i < 3 -> (fun _ _ => [2; 2; 2]%float) i [2; 2; 2]%float = [2; 2; 2]%float) /\
  exists p,
    get_p_value_series np_sum_seq "cat"%string (get_mean_shift_series np_sum_seq [2; 2; 2]%float "last"%string)
      3 [2; 2; 2]%float "last"%string (fun _ _ => [2; 2; 2]%float) = Ret p /\
    length p = length [2; 2; 2]%float - 1 /\
    forall j, j < length p ->
      nth j p 0%float =
        if is_nan (nth j (get_mean_shift_series np_sum_seq [2; 2; 2]%float "last"%string) 0%float)
        then 1%float else 0%float.
Proof.
  split; [lia|]. split; [reflexivity|]. split; [intros; reflexivity|].
  apply (p_value_unchanged_draws np_sum_seq "cat"%string [2; 2; 2]%float 3 "last"%string
           (fun _ _ => [2; 2; 2]%float)); [lia|reflexivity|intros; reflexivity].
Defined.

(** ** Outcomes of [detect_change_point] *)

Lemma py_index_In {A} (l : list A) i a : py_index l i = Ret a -> In a l.
Proof.
  unfold py_index. destruct (nth_error l i) eqn:E; intros H; inversion H; subst.
  eapply nth_error_In. exact E.
Qed.

Lemma compact_labels_incl labels zs ls :
  compact_labels labels zs = Ret ls -> forall x, In x ls -> In x labels.
Proof.
  unfold compact_labels. intros Hf.
  refine (py_fold_inv (fun acc => forall x, In x acc -> In x labels) _ _ _ _ _ _ Hf);
    [|intros x []].
  intros a i r Ha H x Hx.
  destruct (py_index zs i) as [z|e]; [|discriminate]. cbn [py_bind] in H.
  destruct (py_index labels i) as [lab|e] eqn:El; [|discriminate]. cbn [py_bind] in H.
  inversion H; subst. destruct (truthy_opt z); [|auto].
  apply in_app_or in Hx. destruct Hx as [Hx|[<-|[]]]; [auto|].
  eapply py_index_In. exact El.
Qed.

(** [detect_change_point] on a series with a truthy z-score, reduced to its
    selection step. *)
Lemma detect_change_point_reduce np_sum word labels zs n thr gamma cmp permutation :
  length labels = length zs ->
  (forall i, i < n -> length (permutation i (compact zs)) = length (compact zs)) ->
  1 <= length (compact zs) ->
  let ms := get_mean_shift_series np_sum (compact zs) cmp in
  exists ls p0 p,
    compact_labels labels zs = Ret ls /\ length ls = length (compact zs) /\
    get_p_value_series np_sum word ms n (compact zs) cmp permutation = Ret p0 /\
    length p0 = length (compact zs) - 1 /\
    gate p0 (compact zs) gamma = Ret p /\
    detect_change_point np_sum word labels zs n thr gamma cmp permutation =
      select_change_point word ls (compact zs) ms p thr.
Proof.
  intros Hlen Hperm H1 ms.
  destruct (compact_labels_ok labels zs Hlen) as [ls [Hls Hlsl]].
  destruct (get_p_value_series_ok np_sum word (compact zs) n cmp permutation Hperm)
    as [p0 [Hp0 Hp0l]]. fold ms in Hp0.
  destruct (gate_ok p0 (compact zs) gamma) as [p [Hp Hpl]]; [lia|].
  exists ls, p0, p. do 5 (split; [assumption|]).
  unfold detect_change_point. rewrite Hls. cbn [py_bind].
  destruct ls as [|l0 ls']; [simpl in Hlsl; lia|]. cbv zeta.
  fold ms. rewrite Hp0. cbn [py_bind]. rewrite Hp. reflexivity.
Qed.

(** X: for labels and z-scores of equal length and draws that keep the length
    of the series, [detect_change_point] returns no result when no z-score
    is truthy, raises [UnboundLocalError] when exactly one is, and returns
    normally when two or more are. *)
Theorem detect_change_point_outcome np_sum word labels zs n thr gamma cmp permutation :
  length labels = length zs ->
  (forall i, i < n -> length (permutation i (compact zs)) = length (compact zs)) ->
  (length (compact zs) = 0 ->
   detect_change_point np_sum word labels zs n thr gamma cmp permutation = Ret None) /\
  (length (compact zs) = 1 ->
   detect_change_point np_sum word labels zs n thr gamma cmp permutation = Raise UnboundLocalError) /\
  (2 <= length (compact zs) ->
   exists r, detect_change_point np_sum word labels zs n thr gamma cmp permutation = Ret r).
Proof.
  intros Hlen Hperm. split; [|split].
  - intros H0. destruct (compact_labels_ok labels zs Hlen) as [ls [Hls Hlsl]].
    rewrite H0 in Hlsl. destruct ls; [|discriminate].
    unfold detect_change_point. rewrite Hls. reflexivity.
  - intros H1.
    destruct (detect_change_point_reduce np_sum word labels zs n thr gamma cmp permutation
                Hlen Hperm ltac:(lia)) as [ls [p0 [p [_ [_ [_ [Hp0l [Hp ->]]]]]]]].
    rewrite H1 in Hp0l. destruct p0; [|discriminate].
    unfold gate in Hp. simpl in Hp. inversion Hp; subst. reflexivity.
  - intros H2.
    destruct (detect_change_point_reduce np_sum word labels zs n thr gamma cmp permutation
                Hlen Hperm ltac:(lia)) as [ls [p0 [p [_ [Hlsl [_ [Hp0l [Hp ->]]]]]]]].
    destruct (gate_ok p0 (compact zs) gamma) as [q [Hq Hql]]; [lia|].
    rewrite Hp in Hq. inversion Hq; subst q.
    destruct (select_change_point_spec word ls (compact zs)
                (get_mean_shift_series np_sum (compact zs) cmp) p thr) as [mn [_ [Hno Hyes]]];
      [rewrite get_mean_shift_series_length; lia|rewrite get_mean_shift_series_length; lia
      |rewrite get_mean_shift_series_length; lia|destruct p; simpl in *; [lia|discriminate]|].
    destruct (mn <? thr)%float eqn:E.
    + destruct (Hyes eq_refl) as [i [_ [Hsel _]]]. eexists. exact Hsel.
    + eexists. exact (Hno eq_refl).
Qed.

Lemma detect_change_point_outcome_witness :
  length ["2012_02"; "2012_03"]%string = length [Some 1%float; None] /\
  (forall i, i < 5 -> length (identity_permutation i (compact [Some 1%float; None])) =
                      length (compact [Some 1%float; None])) /\
  (length (compact [Some 1%float; None]) = 0 ->
   detect_change_point np_sum_seq "cat"%string ["2012_02"; "2012_03"]%string [Some 1%float; None]
     5 0.5 0 "last"%string identity_permutation = Ret None) /\
  (length (compact [Some 1%float; None]) = 1 ->
   detect_change_point np_sum_seq "cat"%string ["2012_02"; "2012_03"]%string [Some 1%float; None]
     5 0.5 0 "last"%string identity_permutation = Raise UnboundLocalError) /\
  (2 <= length (compact [Some 1%float; None]) ->
   exists r, detect_change_point np_sum_seq "cat"%string ["2012_02"; "2012_03"]%string
               [Some 1%float; None] 5 0.5 0 "last"%string identity_permutation = Ret r).
Proof.
  split; [reflexivity|]. split; [intros; reflexivity|].
  apply (detect_change_point_outcome np_sum_seq "cat"%string ["2012_02"; "2012_03"]%string
           [Some 1%float; None] 5 0.5 0 "last"%string identity_permutation);
    [reflexivity|intros; reflexivity].
Defined.

Lemma py_fold_raise {A B} (f : B -> A -> py B) l acc e :
  (exists l1 x l2 a, l = l1 ++ x :: l2 /\ py_fold f l1 acc = Ret a /\ f a x = Raise e) ->
  py_fold f l acc = Raise e.
Proof.
  intros [l1 [x [l2 [a [-> [H1 H2]]]]]]. rewrite py_fold_app, H1. simpl.
  rewrite H2. reflexivity.
Qed.

(** X: when there are more labels than z-scores, the compaction indexes past
    the end of the z-score series and [detect_change_point] raises
    [IndexError]. *)
Theorem detect_change_point_labels_too_long np_sum word labels zs n thr gamma cmp permutation :
  length zs < length labels ->
  detect_change_point np_sum word labels zs n thr gamma cmp permutation = Raise IndexError.
Proof.
  intros Hlt.
  assert (Hc : compact_labels labels zs = Raise IndexError).
  { unfold compact_labels. apply py_fold_raise.
    destruct (py_fold_ok (fun _ => True)
                (fun acc i =>
                   z <- py_index zs i ;;
                   lab <- py_index labels i ;;
                   Ret (if truthy_opt z then acc ++ [lab] else acc))
                (seq 0 (length zs)) [] ) as [a [Ha _]]; [|exact I|].
    { intros a x _ Hx. apply in_seq in Hx.
      destruct (py_index_lt zs x) as [z [-> _]]; [lia|].
      destruct (py_index_lt labels x) as [lab [-> _]]; [lia|].
      eexists; split; [reflexivity|exact I]. }
    exists (seq 0 (length zs)), (length zs), (seq (S (length zs)) (length labels - S (length zs))), a.
    split; [|split; [exact Ha|]].
    - replace (length labels) with (length zs + S (length labels - S (length zs))) at 1 by lia.
      rewrite seq_app. reflexivity.
    - unfold py_index at 1. rewrite (proj2 (nth_error_None zs (length zs))) by lia.
      reflexivity. }
  unfold detect_change_point. rewrite Hc. reflexivity.
Qed.

Lemma detect_change_point_labels_too_long_witness :
  length [Some 1%float] < length ["2012_02"; "2012_03"]%string /\
  detect_change_point np_sum_seq "cat"%string ["2012_02"; "2012_03"]%string [Some 1%float]
    10 0.25 0 "last"%string identity_permutation = Raise IndexError.
Proof.
  split; [simpl; lia|].
  apply (detect_change_point_labels_too_long np_sum_seq "cat"%string ["2012_02"; "2012_03"]%string
           [Some 1%float] 10 0.25 0 "last"%string identity_permutation). simpl. lia.
Defined.

Lemma eqb_not_nan x y : (x =? y)%float = true -> is_nan x = false /\ is_nan y = false.
Proof.
  rewrite eqb_spec. unfold SpecFloat.SFeqb.
  destruct (is_nan x) eqn:Hx; [rewrite (Prim2SF_nan x Hx); discriminate|].
  destruct (is_nan y) eqn:Hy; [|auto].
  rewrite (Prim2SF_nan y Hy). now destruct (Prim2SF x).
Qed.

Lemma eqb_ltb_trans x y z : (x =? y)%float = true -> (y <? z)%float = true -> (x <? z)%float = true.
Proof.
  intros H1 H2. destruct (eqb_not_nan x y H1) as [Hx Hy].
  rewrite eqb_frank in H1 by assumption. apply Z.eqb_eq in H1.
  destruct (ltb_not_nan y z H2) as [_ Hz].
  rewrite ltb_frank in H2 by assumption. apply Z.ltb_lt in H2.
  rewrite ltb_frank by assumption. apply Z.ltb_lt. lia.
Qed.

Lemma py_fold_inv_mem {A B} (P : B -> Prop) (f : B -> A -> py B) (l : list A) (acc res : B) :
  (forall a x r, In x l -> P a -> f a x = Ret r -> P r) ->
  P acc -> py_fold f l acc = Ret res -> P res.
Proof.
  revert acc. induction l as [|x r IH]; intros acc Hf Hacc H; simpl in H.
  - inversion H; subst; exact Hacc.
  - destruct (f acc x) as [a|e] eqn:E; simpl in H; [|discriminate].
    apply (IH a); [|apply (Hf acc x a (or_introl eq_refl) Hacc E)|exact H].
    intros b y q Hy. apply Hf. now right.
Qed.

(** Any run of the gate loop keeps the length, keeps the ones already set
    and sets to 1 every visited index whose z-score is below gamma. *)
Lemma gate_fold_spec zs gamma l acc q :
  py_fold (fun p i =>
             z <- py_index zs i ;;
             Ret (if (z <? gamma)%float then list_set p i 1%float else p)) l acc = Ret q ->
  length q = length acc /\
  (forall i, nth_error acc i = Some 1%float -> nth_error q i = Some 1%float) /\
  (forall i z, In i l -> i < length acc -> nth_error zs i = Some z ->
               (z <? gamma)%float = true -> nth_error q i = Some 1%float).
Proof.
  revert acc. induction l as [|x r IH]; intros acc H; simpl in H.
  - inversion H; subst q. split; [reflexivity|]. split; [auto|]. intros i z [].
  - unfold py_index at 1 in H. destruct (nth_error zs x) as [zx|] eqn:Ezx; [|discriminate].
    cbn [py_bind] in H.
    destruct (IH _ H) as [Hl [Hkeep Hset]].
    assert (Hlen : length (if (zx <? gamma)%float then list_set acc x 1%float else acc) = length acc)
      by (destruct (zx <? gamma)%float; [apply length_list_set|reflexivity]).
    split; [congruence|]. split.
    + intros i Hi. apply Hkeep. destruct (zx <? gamma)%float; [|exact Hi].
      destruct (Nat.eq_dec i x) as [->|Hix].
      * apply nth_error_list_set_eq. apply nth_error_Some. congruence.
      * rewrite nth_error_list_set_neq by lia. exact Hi.
    + intros i z [<-|Hi] Hlt Hz Hzg.
      * rewrite Ezx in Hz. inversion Hz; subst z. rewrite Hzg in Hkeep.
        apply Hkeep. now apply nth_error_list_set_eq.
      * apply (Hset i z Hi); [lia|exact Hz|exact Hzg].
Qed.

(** An entry of the gated series whose z-score is below gamma is 1. *)
Lemma gate_Ret_spec p zs gamma q :
  gate p zs gamma = Ret q ->
  length q = length p /\
  forall i x z, nth_error q i = Some x -> nth_error zs i = Some z ->
                (z <? gamma)%float = true -> x = 1%float.
Proof.
  unfold gate. intros H. destruct (gate_fold_spec zs gamma _ _ _ H) as [Hl [_ Hset]].
  split; [exact Hl|]. intros i x z Hx Hz Hzg.
  assert (Hi : i < length p) by (rewrite <- Hl; apply nth_error_Some; congruence).
  rewrite (Hset i z) in Hx; [congruence| |exact Hi|exact Hz|exact Hzg].
  apply in_seq. lia.
Qed.

(** A result of the selection step: the word passed in, the minimum of the
    series below the threshold, taken at an index [cp] whose z-score and label
    are read from the given lists. *)
Lemma select_change_point_Ret word ls zs ms p thr w lab pv m z :
  select_change_point word ls zs ms p thr = Ret (Some (w, lab, pv, m, z)) ->
  w = word /\ (pv <? thr)%float = true /\
  exists cp x, nth_error p cp = Some x /\ (x =? pv)%float = true /\
               nth_error zs cp = Some z /\ nth_error ls cp = Some lab.
Proof.
  unfold select_change_point. intros H.
  destruct (np_min p) as [mn|[| |]]; try discriminate.
  destruct (mn <? thr)%float eqn:Ethr; [|discriminate].
  destruct (py_fold _ (where_eq p mn) []) as [pairs|e] eqn:Epairs; cbn [py_bind] in H;
    [|discriminate].
  assert (Hpairs : forall b, In b pairs -> In (fst b) (where_eq p mn)).
  { refine (py_fold_inv_mem (fun acc => forall b, In b acc -> In (fst b) (where_eq p mn))
              _ _ _ _ _ _ Epairs); [|intros b []].
    intros a i r Hi Ha Hr b Hb.
    destruct (py_index ms i) as [mi|e]; cbn [py_bind] in Hr; [|discriminate].
    inversion Hr; subst r. apply in_app_or in Hb. destruct Hb as [Hb|[<-|[]]]; auto. }
  destruct (max_by_snd pairs) as [[cp msv]|e] eqn:Eb; cbn [py_bind] in H; [|discriminate].
  destruct (max_by_snd_spec _ _ Eb) as [Hbin _].
  apply Hpairs in Hbin. simpl in Hbin. apply where_eq_In in Hbin.
  destruct Hbin as [x [Hx Hxe]].
  unfold py_index in H.
  destruct (nth_error zs cp) as [zc|] eqn:Ez; cbn [py_bind] in H; [|discriminate].
  destruct (nth_error ls cp) as [lc|] eqn:El; cbn [py_bind] in H; [|discriminate].
  inversion H; subst w lab pv m z.
  split; [reflexivity|]. split; [exact Ethr|].
  exists cp, x. auto.
Qed.

(** X: a result [(word', label, p, mean_shift, z)] of [detect_change_point]
    carries the word it was called with, a p-value below the threshold, one of
    the given labels and one of the truthy z-scores; when the threshold is at
    most 1, that z-score is not below gamma (the gate set those p-values to 1). *)
Theorem detect_change_point_result np_sum word labels zs n thr gamma cmp permutation
  w lab pv m z :
  detect_change_point np_sum word labels zs n thr gamma cmp permutation =
    Ret (Some (w, lab, pv, m, z)) ->
  w = word /\ (pv <? thr)%float = true /\ In lab labels /\ In z (compact zs) /\
  ((thr <=? 1)%float = true -> (z <? gamma)%float = false).
Proof.
  intros Hdet. unfold detect_change_point in Hdet.
  destruct (compact_labels labels zs) as [ls|e] eqn:Els; cbn [py_bind] in Hdet; [|discriminate].
  destruct ls as [|l0 ls']; [discriminate|]. cbv zeta in Hdet.
  destruct (get_p_value_series _ _ _ _ _ _ _) as [p0|e]; cbn [py_bind] in Hdet; [|discriminate].
  destruct (gate p0 (compact zs) gamma) as [p|e] eqn:Eg; cbn [py_bind] in Hdet; [|discriminate].
  destruct (select_change_point_Ret _ _ _ _ _ _ _ _ _ _ _ Hdet)
    as [Hw [Hpv [cp [x [Hx [Hxe [Hz Hlab]]]]]]].
  split; [exact Hw|]. split; [exact Hpv|]. split.
  { eapply compact_labels_incl; [exact Els|]. eapply nth_error_In. exact Hlab. }
  split; [eapply nth_error_In; exact Hz|].
  intros Hthr. destruct (z <? gamma)%float eqn:Ezg; [|reflexivity].
  destruct (gate_Ret_spec _ _ _ _ Eg) as [_ Hone].
  rewrite (Hone cp x z Hx Hz Ezg) in Hxe.
  pose proof (eqb_ltb_trans _ _ _ Hxe Hpv) as H1t.
  pose proof (ltb_leb_trans _ _ _ H1t Hthr). rewrite ltb_irrefl in *. discriminate.
Qed.

Lemma detect_change_point_result_witness :
  detect_change_point np_sum_seq "cat"%string ["2012_02"; "2012_03"; "2012_04"]%string
    [Some 1%float; Some 2%float; Some 4%float] 2 0.5 0 "first"%string identity_permutation =
    Ret (Some ("cat"%string, "2012_03"%string, 0%float, 2.5%float, 2%float)) /\
  "cat"%string = "cat"%string /\ (0 <? 0.5)%float = true /\
  In "2012_03"%string ["2012_02"; "2012_03"; "2012_04"]%string /\
  In 2%float (compact [Some 1%float; Some 2%float; Some 4%float]) /\
  ((0.5 <=? 1)%float = true -> (2 <? 0)%float = false).
Proof.
  split; [vm_compute; reflexivity|].
  apply (detect_change_point_result np_sum_seq "cat"%string ["2012_02"; "2012_03"; "2012_04"]%string
           [Some 1%float; Some 2%float; Some 4%float] 2 0.5 0 "first"%string identity_permutation
           "cat"%string "2012_03"%string 0%float 2.5%float 2%float).
  vm_compute; reflexivity.
Defined.

(** ** The ranking *)

Lemma SFcompare_opp a b : SFcompare (SFopp a) (SFopp b) = SFcompare b a.
Proof.
  destruct a as [sa|sa| |sa ma ea], b as [sb|sb| |sb mb eb];
    try destruct sa; try destruct sb; simpl; try reflexivity.
  all: match goal with
       | |- Some (match ?c1 with _ => _ end) = Some (match ?c2 with _ => _ end) =>
           assert (Hc : c2 = CompOpp c1) by (apply Z.compare_antisym);
           rewrite Hc; destruct c1; simpl; try reflexivity
       end.
  - f_equal. symmetry. apply (Pos.compare_cont_antisym mb ma Eq).
  - f_equal. apply (Pos.compare_cont_antisym ma mb Eq).
Qed.

Lemma ltb_opp x y : (- x <? - y)%float = (y <? x)%float.
Proof. rewrite !ltb_spec, !opp_spec. unfold SFltb. now rewrite SFcompare_opp. Qed.

Lemma leb_opp x y : (- x <=? - y)%float = (y <=? x)%float.
Proof. rewrite !leb_spec, !opp_spec. unfold SFleb. now rewrite SFcompare_opp. Qed.

Lemma is_nan_opp x : is_nan (- x)%float = is_nan x.
Proof.
  destruct (is_nan x) eqn:H.
  - apply is_nan_Prim2SF. rewrite opp_spec, (Prim2SF_nan x H). reflexivity.
  - destruct (is_nan (- x)%float) eqn:H'; [|reflexivity].
    apply is_nan_Prim2SF in H'. rewrite opp_spec in H'.
    exfalso. apply (Prim2SF_not_nan x H). destruct (Prim2SF x); simpl in H'; congruence.
Qed.

Lemma insert_by_key_perm {A} (key : A -> float) x l :
  Permutation (insert_by_key key x l) (x :: l).
Proof.
  induction l as [|y r IH]; simpl; [reflexivity|].
  destruct (key x <? key y)%float; [reflexivity|].
  eapply perm_trans; [apply perm_skip, IH|apply perm_swap].
Qed.

Lemma sorted_by_key_perm {A} (key : A -> float) l :
  Permutation (sorted_by_key key l) l.
Proof.
  unfold sorted_by_key.
  assert (H : forall l' acc, Permutation
            (fold_left (fun acc x => insert_by_key key x acc) l' acc) (acc ++ l')).
  { intros l'. induction l' as [|x r IH]; intros acc; simpl.
    - rewrite app_nil_r. reflexivity.
    - eapply perm_trans; [apply IH|].
      eapply perm_trans; [apply Permutation_app_tail, insert_by_key_perm|].
      simpl. apply Permutation_middle. }
  apply (H l []).
Qed.

Lemma insert_by_key_sorted {A} (key : A -> float) x l :
  Sorted (fun a b => (key b <? key a)%float = false) l ->
  Sorted (fun a b => (key b <? key a)%float = false) (insert_by_key key x l).
Proof.
  induction l as [|y r IH]; simpl; intros H; [repeat constructor|].
  destruct (key x <? key y)%float eqn:Hxy.
  - constructor; [exact H|]. constructor. apply ltb_asym. exact Hxy.
  - apply Sorted_inv in H as [Hr Hhd]. constructor; [apply IH, Hr|].
    destruct r as [|z r']; simpl.
    + constructor. exact Hxy.
    + destruct (key x <? key z)%float; constructor; [exact Hxy|].
      inversion Hhd; assumption.
Qed.

Lemma sorted_by_key_sorted {A} (key : A -> float) l :
  Sorted (fun a b => (key b <? key a)%float = false) (sorted_by_key key l).
Proof.
  unfold sorted_by_key.
  assert (H : forall l' acc, Sorted (fun a b => (key b <? key a)%float = false) acc ->
            Sorted (fun a b => (key b <? key a)%float = false)
              (fold_left (fun acc x => insert_by_key key x acc) l' acc)).
  { intros l'. induction l' as [|x r IH]; intros acc Hacc; simpl; [exact Hacc|].
    apply IH, insert_by_key_sorted, Hacc. }
  apply H. constructor.
Qed.

Lemma Sorted_weaken {A} (R S : A -> A -> Prop) l :
  (forall a b, R a b -> S a b) -> Sorted R l -> Sorted S l.
Proof.
  intros HRS H. induction H as [|a l Hl IH Hhd]; constructor; [exact IH|].
  destruct Hhd; constructor. apply HRS. assumption.
Qed.

Lemma StronglySorted_weaken_In {A} (R S : A -> A -> Prop) l :
  (forall a b, In a l -> In b l -> R a b -> S a b) -> StronglySorted R l -> StronglySorted S l.
Proof.
  intros HRS H. induction H as [|a l Hl IH Hall]; constructor.
  - apply IH. intros x y Hx Hy. apply HRS; right; assumption.
  - rewrite Forall_forall in *. intros b Hb. apply HRS; [left; reflexivity|right; exact Hb|].
    apply Hall, Hb.
Qed.

Section StableInsertion.
Context {A : Type} (key : A -> float) (sec : A -> Z).

Lemma insert_by_key_lex x l :
  is_nan (key x) = false ->
  Forall (fun y => is_nan (key y) = false /\ (sec y <= sec x)%Z) l ->
  StronglySorted (fun a b => (frank (key a) < frank (key b))%Z \/
      (frank (key a) = frank (key b) /\ (sec a <= sec b)%Z)) l -> StronglySorted (fun a b => (frank (key a) < frank (key b))%Z \/
      (frank (key a) = frank (key b) /\ (sec a <= sec b)%Z)) (insert_by_key key x l).
Proof.
  induction l as [|y r IH]; simpl; intros Hx Hall Hs; [repeat constructor|].
  apply Forall_cons_iff in Hall as [[Hy Hsy] Hr].
  apply StronglySorted_inv in Hs as [Hsr Hfy].
  rewrite (ltb_frank _ _ Hx Hy).
  destruct (Z.ltb_spec (frank (key x)) (frank (key y))) as [Hlt|Hge].
  - constructor; [constructor; assumption|]. constructor; [left; exact Hlt|].
    eapply Forall_impl; [|exact Hfy]. simpl. intros z [Hz|[Hz _]]; left; lia.
  - constructor; [apply IH; assumption|].
    apply Forall_forall. intros z Hz.
    apply (Permutation_in _ (insert_by_key_perm key x r)) in Hz. destruct Hz as [<-|Hz].
    + destruct (Z.lt_ge_cases (frank (key y)) (frank (key x))) as [H|H];
        [left; exact H|right; split; [lia|exact Hsy]].
    + rewrite Forall_forall in Hfy. apply Hfy, Hz.
Qed.

Lemma fold_insert_by_key_lex l acc :
  Forall (fun y => is_nan (key y) = false) (acc ++ l) ->
  StronglySorted (fun a b => (sec a <= sec b)%Z) l ->
  (forall y z, In y acc -> In z l -> (sec y <= sec z)%Z) ->
  StronglySorted (fun a b => (frank (key a) < frank (key b))%Z \/
      (frank (key a) = frank (key b) /\ (sec a <= sec b)%Z)) acc ->
  StronglySorted (fun a b => (frank (key a) < frank (key b))%Z \/
      (frank (key a) = frank (key b) /\ (sec a <= sec b)%Z)) (fold_left (fun acc x => insert_by_key key x acc) l acc).
Proof.
  revert acc. induction l as [|x r IH]; intros acc Hn Hl Hle Hacc; simpl; [exact Hacc|].
  apply StronglySorted_inv in Hl as [Hr Hxr]. rewrite Forall_forall in Hn, Hxr.
  apply IH.
  - apply Forall_forall. intros y Hy. apply Hn. apply in_app_or in Hy as [Hy|Hy].
    + apply (Permutation_in _ (insert_by_key_perm key x acc)) in Hy as [<-|Hy];
        apply in_or_app; [right; left; reflexivity|left; exact Hy].
    + apply in_or_app. right. right. exact Hy.
  - exact Hr.
  - intros y z Hy Hz.
    apply (Permutation_in _ (insert_by_key_perm key x acc)) in Hy as [<-|Hy].
    + apply Hxr, Hz.
    + apply Hle; [exact Hy|right; exact Hz].
  - apply insert_by_key_lex; [apply Hn, in_or_app; right; left; reflexivity| |exact Hacc].
    apply Forall_forall. intros y Hy. split.
    + apply Hn, in_or_app. left. exact Hy.
    + apply Hle; [exact Hy|left; reflexivity].
Qed.

End StableInsertion.

Lemma sorted_by_key_ordered {A} (key : A -> float) l :
  Forall (fun y => is_nan (key y) = false) l ->
  StronglySorted (fun a b => (frank (key a) <= frank (key b))%Z) (sorted_by_key key l).
Proof.
  intros Hn. eapply StronglySorted_weaken_In; cycle 1.
  - apply (fold_insert_by_key_lex key (fun _ => 0%Z) l []); [exact Hn| | |constructor].
    + clear Hn. induction l as [|x r IH]; constructor; [exact IH|].
      apply Forall_forall. intros; lia.
    + intros y z [].
  - simpl. intros a b _ _ [H|[H _]]; lia.
Qed.

(** The results are reordered, never dropped or duplicated: whatever the
    rank key, the ranked list is a permutation of the detected change
    points. *)
Theorem rank_results_perm rank_by results :
  Permutation (rank_results rank_by results) results.
Proof.
  unfold rank_results.
  destruct (String.eqb rank_by "z_score"); [apply sorted_by_key_perm|].
  destruct (String.eqb rank_by "mean_shift"); [apply sorted_by_key_perm|].
  eapply perm_trans; apply sorted_by_key_perm.
Qed.

(** Ranked by z-score, when no z-score is NaN: every change point comes
    before all those with a smaller z-score (the z-scores descend along the
    ranked list). *)
Theorem rank_by_z_score_descending results :
  Forall (fun r => is_nan (result_z_score r) = false) results ->
  StronglySorted (fun a b => (result_z_score b <=? result_z_score a)%float = true)
    (rank_results "z_score" results).
Proof.
  intros Hn.
  change (rank_results "z_score" results)
    with (sorted_by_key (fun x => (- result_z_score x)%float) results).
  assert (Hin : forall r, In r (sorted_by_key (fun x => (- result_z_score x)%float) results) ->
                  is_nan (result_z_score r) = false).
  { intros r Hr. rewrite Forall_forall in Hn. apply Hn.
    eapply Permutation_in; [apply sorted_by_key_perm|exact Hr]. }
  eapply StronglySorted_weaken_In; cycle 1.
  - apply sorted_by_key_ordered. eapply Forall_impl; [|exact Hn].
    intros r H. simpl. rewrite is_nan_opp. exact H.
  - simpl. intros a b Ha Hb H.
    rewrite <- leb_opp, leb_frank by (rewrite is_nan_opp; apply Hin; assumption).
    apply Z.leb_le. exact H.
Qed.

Lemma rank_by_z_score_descending_witness :
  Forall (fun r => is_nan (result_z_score r) = false)
    [("cat", "2012_03", 0.5, 1, 1); ("dog", "2012_04", 0.25, 1, 3);
     ("eel", "2012_05", 0.5, 3, 2)]%float%string /\
  rank_results "z_score"
    [("cat", "2012_03", 0.5, 1, 1); ("dog", "2012_04", 0.25, 1, 3);
     ("eel", "2012_05", 0.5, 3, 2)]%float%string =
    [("dog", "2012_04", 0.25, 1, 3); ("eel", "2012_05", 0.5, 3, 2);
     ("cat", "2012_03", 0.5, 1, 1)]%float%string /\
  StronglySorted (fun a b => (result_z_score b <=? result_z_score a)%float = true)
    (rank_results "z_score"
       [("cat", "2012_03", 0.5, 1, 1); ("dog", "2012_04", 0.25, 1, 3);
     ("eel", "2012_05", 0.5, 3, 2)]%float%string).
Proof.
  split; [repeat constructor|]. split; [vm_compute; reflexivity|].
  apply rank_by_z_score_descending. repeat constructor.
Defined.

(** Ranked by mean shift, when no mean shift is NaN: every change point
    comes before all those with a smaller mean shift (the mean shifts
    descend along the ranked list). *)
Theorem rank_by_mean_shift_descending results :
  Forall (fun r => is_nan (result_mean_shift r) = false) results ->
  StronglySorted (fun a b => (result_mean_shift b <=? result_mean_shift a)%float = true)
    (rank_results "mean_shift" results).
Proof.
  intros Hn.
  change (rank_results "mean_shift" results)
    with (sorted_by_key (fun x => (- result_mean_shift x)%float) results).
  assert (Hin : forall r, In r (sorted_by_key (fun x => (- result_mean_shift x)%float) results) ->
                  is_nan (result_mean_shift r) = false).
  { intros r Hr. rewrite Forall_forall in Hn. apply Hn.
    eapply Permutation_in; [apply sorted_by_key_perm|exact Hr]. }
  eapply StronglySorted_weaken_In; cycle 1.
  - apply sorted_by_key_ordered. eapply Forall_impl; [|exact Hn].
    intros r H. simpl. rewrite is_nan_opp. exact H.
  - simpl. intros a b Ha Hb H.
    rewrite <- leb_opp, leb_frank by (rewrite is_nan_opp; apply Hin; assumption).
    apply Z.leb_le. exact H.
Qed.

Lemma rank_by_mean_shift_descending_witness :
  Forall (fun r => is_nan (result_mean_shift r) = false)
    [("cat", "2012_03", 0.5, 1, 1); ("dog", "2012_04", 0.25, 1, 3);
     ("eel", "2012_05", 0.5, 3, 2)]%float%string /\
  rank_results "mean_shift"
    [("cat", "2012_03", 0.5, 1, 1); ("dog", "2012_04", 0.25, 1, 3);
     ("eel", "2012_05", 0.5, 3, 2)]%float%string =
    [("eel", "2012_05", 0.5, 3, 2); ("cat", "2012_03", 0.5, 1, 1);
     ("dog", "2012_04", 0.25, 1, 3)]%float%string /\
  StronglySorted (fun a b => (result_mean_shift b <=? result_mean_shift a)%float = true)
    (rank_results "mean_shift"
       [("cat", "2012_03", 0.5, 1, 1); ("dog", "2012_04", 0.25, 1, 3);
     ("eel", "2012_05", 0.5, 3, 2)]%float%string).
Proof.
  split; [repeat constructor|]. split; [vm_compute; reflexivity|].
  apply rank_by_mean_shift_descending. repeat constructor.
Defined.

(** Ranked by p-value, when no p-value and no mean shift is NaN: every
    change point comes before all those with a greater p-value, and among
    equal p-values a greater mean shift comes first. *)
Theorem rank_by_p_value_lexicographic results :
  Forall (fun r => is_nan (result_p_value r) = false /\ is_nan (result_mean_shift r) = false)
    results ->
  StronglySorted
    (fun a b => (result_p_value a <? result_p_value b)%float = true \/
                ((result_p_value a =? result_p_value b)%float = true /\
                 (result_mean_shift b <=? result_mean_shift a)%float = true))
    (rank_results "p_value" results).
Proof.
  intros Hn.
  change (rank_results "p_value" results) with
    (sorted_by_key result_p_value (sorted_by_key (fun x => (- result_mean_shift x)%float) results)).
  set (inner := sorted_by_key (fun x => (- result_mean_shift x)%float) results).
  assert (Hp : Permutation inner results) by apply sorted_by_key_perm.
  assert (Hin : forall r, In r inner ->
            is_nan (result_p_value r) = false /\ is_nan (result_mean_shift r) = false).
  { intros r Hr. rewrite Forall_forall in Hn. apply Hn. eapply Permutation_in; eassumption. }
  assert (Hs : StronglySorted
                 (fun a b => (frank (- result_mean_shift a)%float <= frank (- result_mean_shift b)%float)%Z)
                 inner).
  { apply sorted_by_key_ordered. eapply Forall_impl; [|exact Hn].
    intros r [_ H]. simpl. rewrite is_nan_opp. exact H. }
  assert (Hout : forall r, In r (sorted_by_key result_p_value inner) -> In r inner).
  { intros r Hr. eapply Permutation_in; [apply sorted_by_key_perm|exact Hr]. }
  eapply StronglySorted_weaken_In; cycle 1.
  - unfold sorted_by_key at 1.
    apply (fold_insert_by_key_lex result_p_value (fun r => frank (- result_mean_shift r)%float)
             inner []); [| exact Hs | intros y z [] | constructor].
    apply Forall_forall. intros r Hr. apply Hin, Hr.
  - simpl. intros a b Ha Hb H.
    destruct (Hin a (Hout a Ha)) as [Hpa Hma]. destruct (Hin b (Hout b Hb)) as [Hpb Hmb].
    destruct H as [H|[H1 H2]].
    + left. rewrite ltb_frank by assumption. apply Z.ltb_lt. exact H.
    + right. split.
      * rewrite eqb_frank by assumption. apply Z.eqb_eq. exact H1.
      * rewrite <- leb_opp, leb_frank by (rewrite is_nan_opp; assumption).
        apply Z.leb_le. exact H2.
Qed.

Lemma rank_by_p_value_lexicographic_witness :
  Forall (fun r => is_nan (result_p_value r) = false /\ is_nan (result_mean_shift r) = false)
    [("cat", "2012_03", 0.5, 1, 1); ("dog", "2012_04", 0.25, 1, 3);
     ("eel", "2012_05", 0.5, 3, 2)]%float%string /\
  rank_results "p_value"
    [("cat", "2012_03", 0.5, 1, 1); ("dog", "2012_04", 0.25, 1, 3);
     ("eel", "2012_05", 0.5, 3, 2)]%float%string =
    [("dog", "2012_04", 0.25, 1, 3); ("eel", "2012_05", 0.5, 3, 2);
     ("cat", "2012_03", 0.5, 1, 1)]%float%string /\
  StronglySorted
    (fun a b => (result_p_value a <? result_p_value b)%float = true \/
                ((result_p_value a =? result_p_value b)%float = true /\
                 (result_mean_shift b <=? result_mean_shift a)%float = true))
    (rank_results "p_value"
       [("cat", "2012_03", 0.5, 1, 1); ("dog", "2012_04", 0.25, 1, 3);
        ("eel", "2012_05", 0.5, 3, 2)]%float%string).
Proof.
  split; [repeat constructor|]. split; [vm_compute; reflexivity|].
  apply rank_by_p_value_lexicographic. repeat constructor.
Defined.

(** ** The time slices *)

Lemma py_range_In a b k : In k (py_range a b) <-> (a <= k < b)%Z.
Proof.
  unfold py_range. rewrite in_map_iff. split.
  - intros (j & <- & Hj). apply in_seq in Hj. lia.
  - intros Hk. exists (Z.to_nat (k - a)). split; [lia|]. apply in_seq. lia.
Qed.

Lemma py_range_sorted a b : StronglySorted Z.lt (py_range a b).
Proof.
  unfold py_range. generalize 0%nat as s. generalize (Z.to_nat (b - a)) as n.
  induction n as [|n IH]; intros s; simpl; constructor; [apply IH|].
  apply Forall_forall. intros x Hx. apply in_map_iff in Hx as (j & <- & Hj).
  apply in_seq in Hj. lia.
Qed.

Lemma month_loop_In fy fm ly lm y ms y' m :
  StronglySorted Z.lt ms ->
  In (y', m) (month_loop fy fm ly lm y ms) <->
  y' = y /\ In m ms /\ ~ (y = fy /\ m < fm)%Z /\ ~ (y = ly /\ lm < m)%Z.
Proof.
  induction ms as [|m0 r IH]; intros Hs; simpl.
  - split; [contradiction|]. intros (_ & [] & _).
  - apply StronglySorted_inv in Hs as [Hr Hf]. rewrite Forall_forall in Hf.
    specialize (IH Hr).
    destruct (Z.eqb_spec y fy) as [Hy|Hy]; destruct (Z.ltb_spec m0 fm) as [Hm|Hm]; simpl;
    [rewrite IH; split; [intros (? & ? & ? & ?); tauto|];
     intros (? & [<- | ?] & ? & ?); [lia|tauto]|..];
    (destruct (Z.eqb_spec y ly) as [Hl|Hl]; destruct (Z.ltb_spec lm m0) as [Hlm|Hlm]; simpl;
     [split; [contradiction|]; intros (? & [<- | Hin] & ? & ?); [lia|];
      specialize (Hf m Hin); lia|..]);
    (rewrite IH; split;
     [intros [Heq|(? & ? & ? & ?)]; [inversion Heq; subst; repeat split; auto; lia|tauto]
     |intros (-> & [<- | ?] & ? & ?); [left; reflexivity|right; tauto]]).
Qed.

Lemma year_loop_In fy fm ly lm ys y m :
  StronglySorted Z.lt ys ->
  In (y, m) (year_loop fy fm ly lm ys) <->
  In y ys /\ (fy <= y <= ly)%Z /\ In (y, m) (month_loop fy fm ly lm y (py_range 1 13)).
Proof.
  induction ys as [|y0 r IH]; intros Hs; cbn [year_loop In].
  - split; [contradiction|]. intros ([] & _).
  - apply StronglySorted_inv in Hs as [Hr Hf]. rewrite Forall_forall in Hf.
    specialize (IH Hr).
    destruct (Z.ltb_spec y0 fy) as [H1|H1].
    + rewrite IH. split; [intros (? & ? & ?); tauto|].
      intros ([<- | ?] & ? & ?); [lia|tauto].
    + destruct (Z.ltb_spec ly y0) as [H2|H2].
      * split; [contradiction|]. intros ([<- | Hin] & ? & ?); [lia|].
        specialize (Hf y Hin). lia.
      * rewrite in_app_iff, IH. split.
        -- intros [Hm|(? & ? & ?)]; [|tauto].
           pose proof Hm as Hm'.
           apply month_loop_In in Hm' as (-> & _); [|apply py_range_sorted].
           split; [left; reflexivity|]. split; [lia|exact Hm].
        -- intros ([<- | ?] & ? & ?); [left; assumption|right; tauto].
Qed.

(** The time slices whose models are looked for are exactly the months of
    the years 2011 to 2018 that lie between the first and the last time
    slice, both included. *)
Theorem time_slices_In first_year first_month last_year last_month year month :
  In (year, month) (time_slices first_year first_month last_year last_month) <->
  (2011 <= year <= 2018)%Z /\ (1 <= month <= 12)%Z /\
  (first_year < year \/ year = first_year /\ first_month <= month)%Z /\
  (year < last_year \/ year = last_year /\ month <= last_month)%Z.
Proof.
  unfold time_slices.
  rewrite year_loop_In by apply py_range_sorted.
  rewrite month_loop_In by apply py_range_sorted.
  rewrite !py_range_In. split; intros; lia.
Qed.

Lemma StronglySorted_app {A} (R : A -> A -> Prop) l1 l2 :
  StronglySorted R l1 -> StronglySorted R l2 ->
  (forall a b, In a l1 -> In b l2 -> R a b) -> StronglySorted R (l1 ++ l2).
Proof.
  induction l1 as [|x r IH]; intros H1 H2 H; simpl; [exact H2|].
  apply StronglySorted_inv in H1 as [Hr Hf]. constructor.
  - apply IH; [exact Hr|exact H2|]. intros a b Ha Hb. apply H; [right|]; assumption.
  - apply Forall_app. split; [exact Hf|]. apply Forall_forall. intros b Hb.
    apply H; [left; reflexivity|exact Hb].
Qed.

Lemma month_loop_sorted fy fm ly lm y ms :
  StronglySorted Z.lt ms ->
  StronglySorted (fun a b => (fst a < fst b)%Z \/ (fst a = fst b /\ (snd a < snd b)%Z))
    (month_loop fy fm ly lm y ms).
Proof.
  induction ms as [|m0 r IH]; intros Hs; simpl; [constructor|].
  pose proof Hs as Hs'. apply StronglySorted_inv in Hs' as [Hr Hf]. rewrite Forall_forall in Hf.
  destruct ((y =? fy)%Z && (m0 <? fm)%Z); [apply IH, Hr|].
  destruct ((y =? ly)%Z && (lm <? m0)%Z); [constructor|].
  constructor; [apply IH, Hr|]. apply Forall_forall. intros [y' m] Hin.
  apply month_loop_In in Hin as (-> & Hm & _); [|exact Hr].
  right. split; [reflexivity|]. apply Hf, Hm.
Qed.

Lemma year_loop_sorted fy fm ly lm ys :
  StronglySorted Z.lt ys ->
  StronglySorted (fun a b => (fst a < fst b)%Z \/ (fst a = fst b /\ (snd a < snd b)%Z))
    (year_loop fy fm ly lm ys).
Proof.
  induction ys as [|y0 r IH]; intros Hs; cbn [year_loop]; [constructor|].
  pose proof Hs as Hs'. apply StronglySorted_inv in Hs' as [Hr Hf]. rewrite Forall_forall in Hf.
  destruct (y0 <? fy)%Z; [apply IH, Hr|].
  destruct (ly <? y0)%Z; [constructor|].
  apply StronglySorted_app; [apply month_loop_sorted, py_range_sorted|apply IH, Hr|].
  intros [ya ma] [yb mb] Ha Hb.
  apply month_loop_In in Ha as (-> & _); [|apply py_range_sorted].
  apply year_loop_In in Hb as (Hb & _); [|exact Hr].
  left. apply Hf, Hb.
Qed.

(** The time slices are listed in strictly chronological order, hence
    without repetition. *)
Theorem time_slices_chronological first_year first_month last_year last_month :
  StronglySorted (fun a b => (fst a < fst b)%Z \/ (fst a = fst b /\ (snd a < snd b)%Z))
    (time_slices first_year first_month last_year last_month).
Proof. apply year_loop_sorted, py_range_sorted. Qed.

(** ** The reference models *)

Lemma py_getitem_nat {A} (l : list A) k d :
  k < length l -> py_getitem l (Z.of_nat k) = Ret (nth k l d).
Proof.
  intros Hk. unfold py_getitem.
  destruct (Z.ltb_spec (Z.of_nat k) 0) as [H|_]; [lia|].
  destruct (Z.ltb_spec (Z.of_nat k) 0) as [H|_]; [lia|].
  unfold py_index. rewrite Nat2Z.id. rewrite (nth_error_nth' l d Hk). reflexivity.
Qed.

Lemma py_getitem_minus_one {A} (l : list A) d :
  l <> [] -> py_getitem l (-1) = Ret (nth (length l - 1) l d).
Proof.
  intros Hl. destruct l as [|x r]; [contradiction|]. unfold py_getitem.
  change (-1 <? 0)%Z with true. cbv beta iota zeta.
  replace (-1 + Z.of_nat (length (x :: r)))%Z with (Z.of_nat (length r)) by (cbn [length]; lia).
  destruct (Z.ltb_spec (Z.of_nat (length r)) 0) as [H|_]; [lia|].
  unfold py_index. rewrite Nat2Z.id.
  rewrite (nth_error_nth' (x :: r) d) by (cbn [length]; lia). f_equal. f_equal. cbn [length]. lia.
Qed.

Lemma nth_last {A} (l : list A) d : nth (length l - 1) l d = last l d.
Proof.
  assert (H : forall r x, nth (length r) (x :: r) d = last (x :: r) d).
  { induction r as [|y r IH]; intros x; [reflexivity|].
    change (nth (length r) (y :: r) d = last (y :: r) d). apply IH. }
  destruct l as [|x r]; [reflexivity|].
  replace (length (x :: r) - 1) with (length r) by (cbn [length]; lia). apply H.
Qed.

Lemma reference_index_getitem (model_paths : list string) option i :
  i < length model_paths ->
  exists k, k < length model_paths /\
    py_getitem model_paths (reference_index option i) = Ret (nth k model_paths ""%string) /\
    (option = "first"%string -> k = 0) /\
    (option = "last"%string -> k = length model_paths - 1) /\
    (option <> "first"%string -> option <> "last"%string -> 0 < i -> k = i - 1) /\
    (option <> "first"%string -> option <> "last"%string -> i = 0 -> k = length model_paths - 1).
Proof.
  intros Hi. assert (Hne : model_paths <> []) by (intros ->; simpl in Hi; lia).
  unfold reference_index.
  destruct (String.eqb_spec option "first") as [->|Hf].
  - exists 0. split; [lia|]. split; [apply (py_getitem_nat model_paths 0); lia|].
    repeat split; intros; try discriminate; try contradiction; reflexivity.
  - destruct (String.eqb_spec option "last") as [->|Hl].
    + exists (length model_paths - 1). split; [lia|].
      split; [apply py_getitem_minus_one, Hne|].
      repeat split; intros; try discriminate; try contradiction; reflexivity.
    + destruct i as [|i'].
      * exists (length model_paths - 1). split; [lia|].
        split; [apply py_getitem_minus_one, Hne|].
        repeat split; intros; try contradiction; try lia.
      * exists i'. split; [lia|]. split.
        -- replace (Z.of_nat (S i') - 1)%Z with (Z.of_nat i') by lia.
           apply py_getitem_nat. lia.
        -- repeat split; intros; try contradiction; try lia.
Qed.

(** For a model index in range, choosing the reference models never raises:
    the model is skipped, or both references are models of the list; under
    the comparison policies [first], [last] and [previous] the comparison
    reference is never the model itself. *)
Theorem reference_paths_outcome align_to compare_to model_paths i :
  i < length model_paths ->
  reference_paths align_to compare_to model_paths i = Ret None \/
  exists ka kc, ka < length model_paths /\ kc < length model_paths /\
    reference_paths align_to compare_to model_paths i =
      Ret (Some (nth ka model_paths ""%string, nth kc model_paths ""%string)) /\
    ((compare_to = "first" \/ compare_to = "last" \/ compare_to = "previous")%string -> kc <> i).
Proof.
  intros Hi. unfold reference_paths.
  destruct (Nat.eqb i 0 && (String.eqb compare_to "previous" || String.eqb align_to "previous"
                     || String.eqb compare_to "first")) eqn:E1; [left; reflexivity|].
  destruct ((Z.of_nat i =? Z.of_nat (length model_paths) - 1)%Z
          && String.eqb compare_to "last") eqn:E2; [left; reflexivity|].
  right.
  destruct (reference_index_getitem model_paths align_to i Hi) as (ka & Hka & Ga & _).
  destruct (reference_index_getitem model_paths compare_to i Hi)
    as (kc & Hkc & Gc & Cf & Cl & Cp & _).
  rewrite Ga, Gc. exists ka, kc. split; [exact Hka|]. split; [exact Hkc|].
  split; [reflexivity|].
  intros [-> | [-> | ->]].
  - rewrite (Cf eq_refl). rewrite !orb_true_r, andb_true_r in E1.
    apply Nat.eqb_neq in E1. lia.
  - rewrite (Cl eq_refl). rewrite andb_true_r in E2. apply Z.eqb_neq in E2. lia.
  - simpl in E1. rewrite andb_true_r in E1. apply Nat.eqb_neq in E1.
    rewrite (Cp ltac:(discriminate) ltac:(discriminate)) by lia. lia.
Qed.

Lemma reference_paths_outcome_witness :
  1 < length ["m1"; "m2"]%string /\
  (reference_paths "first" "first" ["m1"; "m2"]%string 1 = Ret None \/
   exists ka kc, ka < length ["m1"; "m2"]%string /\ kc < length ["m1"; "m2"]%string /\
     reference_paths "first" "first" ["m1"; "m2"]%string 1 =
       Ret (Some (nth ka ["m1"; "m2"]%string ""%string, nth kc ["m1"; "m2"]%string ""%string)) /\
     (("first" = "first" \/ "first" = "last" \/ "first" = "previous")%string -> kc <> 1)).
Proof. split; [simpl; lia|]. apply reference_paths_outcome. simpl. lia. Defined.

(** With a comparison policy other than [first], [last] and [previous] and an
    alignment policy other than [previous], the first model is not skipped:
    [model_paths[i-1]] is [model_paths[-1]], so it is compared with the last
    model (and aligned to it unless the alignment policy is [first]). *)
Theorem reference_paths_first_model_wraps align_to compare_to model_paths :
  model_paths <> [] ->
  compare_to <> "first"%string -> compare_to <> "last"%string ->
  compare_to <> "previous"%string -> align_to <> "previous"%string ->
  reference_paths align_to compare_to model_paths 0 =
    Ret (Some (if String.eqb align_to "first" then nth 0 model_paths ""%string
               else last model_paths ""%string,
               last model_paths ""%string)).
Proof.
  intros Hne Hf Hl Hp Ha. unfold reference_paths.
  rewrite (proj2 (String.eqb_neq _ _) Hf), (proj2 (String.eqb_neq _ _) Hp),
          (proj2 (String.eqb_neq _ _) Ha), (proj2 (String.eqb_neq compare_to "last") Hl).
  cbn [orb andb Nat.eqb]. rewrite andb_false_r.
  assert (Hi : 0 < length model_paths) by (destruct model_paths; [contradiction|simpl; lia]).
  destruct (reference_index_getitem model_paths align_to 0 Hi)
    as (ka & Hka & Ga & Af & Al & _ & A0).
  destruct (reference_index_getitem model_paths compare_to 0 Hi)
    as (kc & Hkc & Gc & _ & _ & _ & C0).
  rewrite Ga, Gc. simpl. rewrite (C0 Hf Hl eq_refl), nth_last.
  destruct (String.eqb_spec align_to "first") as [->|Haf].
  - rewrite (Af eq_refl). reflexivity.
  - destruct (String.eqb_spec align_to "last") as [->|Hal].
    + rewrite (Al eq_refl), nth_last. reflexivity.
    + rewrite (A0 Haf Hal eq_refl), nth_last. reflexivity.
Qed.

Lemma reference_paths_first_model_wraps_witness :
  ["m1"; "m2"; "m3"]%string <> [] /\
  reference_paths "last" "next" ["m1"; "m2"; "m3"]%string 0 = Ret (Some ("m3", "m3"))%string /\
  reference_paths "last" "next" ["m1"; "m2"; "m3"]%string 0 =
    Ret (Some (if String.eqb "last" "first" then nth 0 ["m1"; "m2"; "m3"]%string ""%string
               else last ["m1"; "m2"; "m3"]%string ""%string,
               last ["m1"; "m2"; "m3"]%string ""%string)).
Proof.
  split; [discriminate|]. split; [reflexivity|].
  apply reference_paths_first_model_wraps; discriminate.
Defined.

(** ** The table of z-score dicts *)

Lemma reference_paths_ret align_to compare_to model_paths i :
  i < length model_paths -> exists r, reference_paths align_to compare_to model_paths i = Ret r.
Proof.
  intros Hi. unfold reference_paths.
  destruct (_ && _); [eexists; reflexivity|].
  destruct (_ && _); [eexists; reflexivity|].
  destruct (reference_index_getitem model_paths align_to i Hi) as (ka & _ & Ga & _).
  destruct (reference_index_getitem model_paths compare_to i Hi) as (kc & _ & Gc & _).
  rewrite Ga, Gc. eexists; reflexivity.
Qed.

Lemma get_z_score_dict_keys np_sum dist_dict :
  map fst (get_z_score_dict np_sum dist_dict) = map fst dist_dict.
Proof.
  unfold get_z_score_dict. rewrite map_map. apply map_ext. intros [w d]. reflexivity.
Qed.

Lemma get_dist_dict_keys Model Vec load_model in_model vector cosine
  measure_semantic_shift_by_neighborhood smart_procrustes_align_gensim
  model_path alignment_reference_model_path comparison_reference_model_path vocab
  distance_measure k training_mode :
  map fst (get_dist_dict Model Vec load_model in_model vector cosine
             measure_semantic_shift_by_neighborhood smart_procrustes_align_gensim
             model_path alignment_reference_model_path comparison_reference_model_path vocab
             distance_measure k training_mode) = vocab.
Proof. unfold get_dist_dict. rewrite map_map. apply map_id. Qed.

Lemma dict_get_set_eq {V} (d : list (string * V)) k v : dict_get (dict_set d k v) k = Some v.
Proof.
  induction d as [|[k' v'] r IH]; simpl.
  - rewrite String.eqb_refl. reflexivity.
  - destruct (String.eqb_spec k' k) as [->|Hne]; simpl.
    + rewrite String.eqb_refl. reflexivity.
    + rewrite (proj2 (String.eqb_neq k' k) Hne). exact IH.
Qed.

Lemma dict_get_set_neq {V} (d : list (string * V)) k k' v :
  k <> k' -> dict_get (dict_set d k v) k' = dict_get d k'.
Proof.
  intros Hk. induction d as [|[k0 v0] r IH]; simpl.
  - rewrite (proj2 (String.eqb_neq k k') Hk). reflexivity.
  - destruct (String.eqb_spec k0 k) as [->|Hne]; simpl.
    + rewrite (proj2 (String.eqb_neq k k') Hk). reflexivity.
    + destruct (String.eqb k0 k'); [reflexivity|exact IH].
Qed.

Lemma dict_get_In_keys {V} (d : list (string * V)) k :
  In k (map fst d) -> exists v, dict_get d k = Some v.
Proof.
  induction d as [|[k' v'] r IH]; simpl; [contradiction|].
  intros H. destruct (String.eqb_spec k' k) as [_|Hne]; [eexists; reflexivity|].
  apply IH. destruct H as [H|H]; [contradiction|exact H].
Qed.

Lemma z_score_series_of_some table used word :
  (forall t, In t used -> exists d, dict_get table t = Some d /\ In word (map fst d)) ->
  exists s, z_score_series_of table used word = Some s /\ length s = length used.
Proof.
  induction used as [|t r IH]; intros H; simpl; [exists []; split; reflexivity|].
  destruct (H t (or_introl eq_refl)) as (d & Hd & Hw). rewrite Hd.
  destruct (dict_get_In_keys d word Hw) as [z Hz]. rewrite Hz.
  destruct IH as (s & Hs & Hl); [intros t' Ht'; apply H; right; exact Ht'|].
  rewrite Hs. exists (z :: s). split; [reflexivity|]. simpl. rewrite Hl. reflexivity.
Qed.

(** When there are as many time-slice labels as model paths, the loop that
    fills [dict_of_z_score_dicts] raises no error, the labels used are time
    slice labels, and reading a vocabulary word's z-score series through all
    used labels raises no [KeyError] and yields one entry per used label. *)
Theorem z_score_table_series np_sum Model Vec load_model in_model vector cosine
  measure_semantic_shift_by_neighborhood smart_procrustes_align_gensim
  model_paths time_slice_labels vocab align_to compare_to distance_measure k training_mode :
  length model_paths = length time_slice_labels ->
  exists dict_of_z_score_dicts time_slice_labels_used,
    z_score_table np_sum Model Vec load_model in_model vector cosine
      measure_semantic_shift_by_neighborhood smart_procrustes_align_gensim
      model_paths time_slice_labels vocab align_to compare_to distance_measure k training_mode =
      Ret (dict_of_z_score_dicts, time_slice_labels_used) /\
    incl time_slice_labels_used time_slice_labels /\
    forall word, In word vocab ->
      exists s, z_score_series_of dict_of_z_score_dicts time_slice_labels_used word = Some s /\
                length s = length time_slice_labels_used.
Proof.
  intros Hlen. unfold z_score_table.
  match goal with
  | |- context [py_fold ?f ?l ?acc] =>
      destruct (py_fold_ok
        (fun '(table, used) =>
           incl used time_slice_labels /\
           forall t, In t used -> exists d, dict_get table t = Some d /\ map fst d = vocab)
        f l acc) as ([table used] & Hf & Hincl & Hinv)
  end; cycle 2.
  - exists table, used. split; [exact Hf|]. split; [exact Hincl|].
    intros word Hw. apply z_score_series_of_some.
    intros t Ht. destruct (Hinv t Ht) as (d & Hd & Hk). exists d. rewrite Hk. split; assumption.
  - intros [table used] [i mp] [Hincl Hinv] Hx.
    apply in_combine_l, in_seq in Hx.
    destruct (reference_paths_ret align_to compare_to model_paths i) as [refs Hr]; [lia|].
    rewrite Hr. simpl. destruct refs as [[a c]|].
    + unfold py_index. rewrite (nth_error_nth' time_slice_labels ""%string) by lia. simpl.
      eexists. split; [reflexivity|]. split.
      * intros t Ht. apply in_app_or in Ht as [Ht|[<-|[]]]; [apply Hincl, Ht|].
        apply nth_In. lia.
      * intros t Ht. destruct (String.eqb_spec (nth i time_slice_labels ""%string) t) as [<-|Hne].
        -- rewrite dict_get_set_eq. eexists. split; [reflexivity|].
           rewrite get_z_score_dict_keys, get_dist_dict_keys. reflexivity.
        -- rewrite dict_get_set_neq by exact Hne. apply Hinv.
           apply in_app_or in Ht as [Ht|[Ht|[]]]; [exact Ht|congruence].
    + eexists. split; [reflexivity|]. split; assumption.
  - split; [intros t []|intros t []].
Qed.

Lemma z_score_table_series_witness :
  length ["m1"; "m2"]%string = length ["2012_01"; "2012_02"]%string /\
  exists dict_of_z_score_dicts time_slice_labels_used,
    z_score_table np_sum_seq unit unit (fun _ => tt) (fun _ _ => true) (fun _ _ => tt)
      (fun _ _ => 0.5%float) (fun _ _ _ _ => 1%float) (fun _ m => m)
      ["m1"; "m2"]%string ["2012_01"; "2012_02"]%string ["cat"]%string
      "first" "previous" "cosine" 25 "independent" =
      Ret (dict_of_z_score_dicts, time_slice_labels_used) /\
    incl time_slice_labels_used ["2012_01"; "2012_02"]%string /\
    forall word, In word ["cat"]%string ->
      exists s, z_score_series_of dict_of_z_score_dicts time_slice_labels_used word = Some s /\
                length s = length time_slice_labels_used.
Proof. split; [reflexivity|]. apply z_score_table_series. reflexivity. Defined.
